(** * persian-wheel-picker: a shallow embedding of the wheel and the composite picker

    The development follows [registry/default/persian-wheel-picker.tsx]:
    the JavaScript helpers ([clamp], [Math.round], [split], [Number]), the
    initial-date resolution, the single [Wheel] (index mapping, snap,
    per-frame publication, external sync, click) and the composite
    [PersianWheelPicker] (day clamp effect, debounced [emitChange]).

    Numbers that the component reads from the scroll surface are rationals
    ([Q]); indices, years, months, days and instants are integers ([Z]).
    The calendar library (dayjs + jalaliday) is outside the repository: the
    parts of it the component relies on are either section variables or
    modelled from the specification, and say so. *)

From Stdlib Require Import ZArith QArith Qround Qabs List String Ascii Bool Lia.
From Stdlib Require Import DecimalString DecimalPos Lqa.
Import ListNotations.

Local Open Scope Z_scope.

(** ** JavaScript values and helpers *)

Module JS.

(** The only exception the component can meet: a property read or a call
    on [undefined] or on a number. *)
Inductive Thrown : Type := TypeError.

Inductive Outcome (A : Type) : Type :=
| Returns (a : A)
| Throws (e : Thrown).
Arguments Returns {A} a.
Arguments Throws {A} e.

Definition bind {A B : Type} (o : Outcome A) (k : A -> Outcome B) : Outcome B :=
  match o with
  | Returns a => k a
  | Throws e => Throws e
  end.

(** Numbers that date components take: an integer or [NaN]. *)
Inductive jsnum : Type :=
| NaN
| Fin (z : Z).

(** A possibly missing array element or argument. *)
Inductive jsval : Type :=
| Undefined
| Num (n : jsnum).

(** [const clamp = (v, min, max) => Math.max(min, Math.min(v, max))] *)
Definition clamp (v min max : Z) : Z := Z.max min (Z.min v max).

(** [Math.round]: the nearest integer, ties toward +infinity. *)
Definition Math_round (x : Q) : Z := Qfloor (x + (1 # 2)).

(** [s.split(sep)] for a one-character separator. *)
Fixpoint split (sep : ascii) (s : string) : list string :=
  match s with
  | EmptyString => [EmptyString]
  | String c rest =>
      if Ascii.eqb c sep then EmptyString :: split sep rest
      else match split sep rest with
           | w :: ws => String c w :: ws
           | [] => [String c EmptyString]
           end
  end.

Definition digitValue (c : ascii) : option Z :=
  let n := nat_of_ascii c in
  if ((48 <=? n) && (n <=? 57))%nat then Some (Z.of_nat (n - 48)) else None.

Fixpoint digitsValue (acc : Z) (s : string) : option Z :=
  match s with
  | EmptyString => Some acc
  | String c rest =>
      match digitValue c with
      | Some d => digitsValue (10 * acc + d) rest
      | None => None
      end
  end.

(** [Number(s)] on the spellings the pieces of a date string have: a run
    of decimal digits is its value, the empty string is 0 and a piece with
    any other character is [NaN].  Signs, fractions, exponents, radix
    prefixes and surrounding white space are outside this model. *)
Definition Number (s : string) : jsnum :=
  match digitsValue 0 s with
  | Some z => Fin z
  | None => NaN
  end.

(** [arr[i]]: [undefined] past the end. *)
Definition element (arr : list jsnum) (i : nat) : jsval :=
  match nth_error arr i with
  | Some n => Num n
  | None => Undefined
  end.

(** [v - k] on a possibly [undefined] operand: [undefined - 1] is [NaN]. *)
Definition minus (v : jsval) (k : Z) : jsval :=
  match v with
  | Num (Fin z) => Num (Fin (z - k))
  | _ => Num NaN
  end.

(** [String(n)] for an integer. *)
Definition toString (z : Z) : string := NilZero.string_of_int (Z.to_int z).

Fixpoint repeatChar (c : ascii) (n : nat) : string :=
  match n with
  | O => EmptyString
  | S k => String c (repeatChar c k)
  end.

(** [s.padStart(len, c)] for a one-character filler. *)
Definition padStart (len : nat) (c : ascii) (s : string) : string :=
  (repeatChar c (len - String.length s) ++ s)%string.

End JS.

Import JS.

(** ** The calendar library as the component sees it *)

Module Dayjs.

(** A Jalali date as the library holds it: [$jy], [$jM] (0-based month)
    and [$jD]. *)
Record JDate : Type := mkJDate { jYear : Z; jMonth : Z; jDay : Z }.

(** A wrapper object: a date, or the invalid date. *)
Inductive t : Type :=
| Valid (d : JDate)
| Invalid.

Inductive Unit : Type := UYear | UMonth | UDate.

(** What a method call in the chain evaluates to: a wrapper object or a
    plain number. *)
Inductive Value : Type :=
| VObject (o : t)
| VNumber (n : jsnum).

Definition field (u : Unit) (d : JDate) : Z :=
  match u with
  | UYear => jYear d
  | UMonth => jMonth d
  | UDate => jDay d
  end.

(** [isValid()] *)
Definition isValid (o : t) : bool :=
  match o with
  | Valid _ => true
  | Invalid => false
  end.

Section Accessors.

(** The date the library's setter makes of a valid date when one unit
    is set to a finite number.  The library is not part of the
    repository; nothing is assumed about this function. *)
Variable jset : Unit -> JDate -> Z -> t.

(** [o.year(v)], [o.month(v)], [o.date(v)]: one method is both getter
    and setter.  With no argument, or [undefined], it reads the unit
    and returns a number (the component uses it so: [initial.year()],
    [initial.month()], [initial.date()]); with a number it returns a
    new wrapper, invalid when the receiver is or the number is [NaN]. *)
Definition accessor (u : Unit) (o : t) (v : jsval) : Value :=
  match v with
  | Undefined =>
      VNumber (match o with
               | Valid d => Fin (field u d)
               | Invalid => NaN
               end)
  | Num NaN => VObject Invalid
  | Num (Fin z) =>
      VObject (match o with
               | Valid d => jset u d z
               | Invalid => Invalid
               end)
  end.

(** A method call on the result of the previous call of a chain: a
    number has no such method. *)
Definition chained (u : Unit) (recv : Value) (v : jsval) : Outcome Value :=
  match recv with
  | VObject o => Returns (accessor u o v)
  | VNumber _ => Throws TypeError
  end.

(** *** Initial date resolution (PersianWheelPicker, lines 368-380)
<<
  let initial = todayJalali;
  if (initialJalaliDate) {
    const [y, m, d] = initialJalaliDate.split("-").map(Number);
    const parsed = dayjs().calendar("jalali").year(y).month(m - 1).date(d);
    if (parsed.isValid()) initial = parsed;
  }
>>
    [todayJalali] is the fallback; [None] is an absent prop. *)
Definition parsedChain (today : JDate) (parts : list jsnum) : Outcome Value :=
  let y := element parts 0 in
  let m := element parts 1 in
  let d := element parts 2 in
  bind (chained UYear (VObject (Valid today)) y) (fun r1 =>
  bind (chained UMonth r1 (minus m 1)) (fun r2 =>
  chained UDate r2 d)).

Definition resolveParts (today : JDate) (parts : list jsnum) : Outcome t :=
  bind (parsedChain today parts) (fun parsed =>
  match parsed with
  | VObject o => Returns (if isValid o then o else Valid today)
  | VNumber _ => Throws TypeError   (* parsed.isValid is not a function *)
  end).

Definition resolveInitial (today : JDate) (initialJalaliDate : option string)
  : Outcome t :=
  match initialJalaliDate with
  | None => Returns (Valid today)
  | Some EmptyString => Returns (Valid today)
  | Some s => resolveParts today (map Number (split "-" s))
  end.

End Accessors.

End Dayjs.

Import Dayjs.

(** ** Month lengths *)

Module Calendar.

Section MonthLength.

(** The leap-year rule of the Jalali calendar, as the library decides
    it.  The development holds for every rule. *)
Variable leap : Z -> bool.

(** Modelled from the spec: the library call behind
<<
  const daysInMonth = dayjs().calendar("jalali")
    .year(year).month(month - 1).date(1).daysInMonth();
>>
    is not part of the repository.  The specification gives it as
    [daysInMonth(year, month)], the day count of the Jalali month
    (1-based), where Esfand has 29 or 30 days depending on the leap-year
    rule; the first six months have 31 days and the next five 30. *)
Definition daysInMonth (year month : Z) : Z :=
  if month <=? 6 then 31
  else if month <=? 11 then 30
  else if leap year then 30 else 29.

End MonthLength.

(** The 33-year arithmetic rule, used for the worked examples: it agrees
    with the calendar on the years they mention (1403 is a leap year,
    1402 is not). *)
Definition leap33 (year : Z) : bool :=
  let r := year mod 33 in
  existsb (Z.eqb r) [1; 5; 9; 13; 17; 22; 26; 30].

End Calendar.

Import Calendar.

(** ** A single wheel *)

Module Wheel.

(** [interface WheelItem { value: number; label: string }] *)
Record WheelItem : Type := mkItem { value : Z; label : string }.

(** [const ITEM_HEIGHT = 44] *)
Definition ITEM_HEIGHT : Z := 44.

(** The scroll container, as far as the handlers read it. *)
Record Surface : Type :=
  mkSurface { scrollTop : Q; scrollHeight : Z; clientHeight : Z }.

(** The props the logic depends on; [selected] is the [value] prop. *)
Record Props : Type :=
  mkProps { items : list WheelItem; selected : Z; centered : bool }.

Inductive ScrollBehavior : Type := Smooth | Instant | Auto.

(** What a handler does to the outside: a call of the [onChange] prop or
    a scroll command to the container. *)
Inductive Command : Type :=
| OnChange (v : Z)
| ScrollTo (top : Q) (behavior : ScrollBehavior).


Definition count (p : Props) : Z := Z.of_nat (List.length (items p)).

Fixpoint findIndexFrom (k : Z) (l : list WheelItem) (v : Z) : Z :=
  match l with
  | [] => -1
  | it :: rest => if value it =? v then k else findIndexFrom (k + 1) rest v
  end.

(** [items.findIndex((i) => i.value === v)] *)
Definition findIndex (p : Props) (v : Z) : Z := findIndexFrom 0 (items p) v.

(** [items[index]]: [undefined] outside the array. *)
Definition itemAt (l : list WheelItem) (index : Z) : option WheelItem :=
  if index <? 0 then None else nth_error l (Z.to_nat index).

(** The offset of an index; the source writes this expression in
    [scrollToIndex], in the sync effect and in the click handler:
<<
    centered ? ix * ITEM_HEIGHT
    : items.length > 1
    ? (ix / (items.length - 1)) * (el.scrollHeight - el.clientHeight)
    : 0
>> *)
Definition target (p : Props) (el : Surface) (ix : Z) : Q :=
  if centered p then inject_Z (ix * ITEM_HEIGHT)
  else if 1 <? count p
       then (inject_Z ix / inject_Z (count p - 1))
            * inject_Z (scrollHeight el - clientHeight el)
       else 0.

(** [scrollToIndex(newIndex, behavior)]: nothing without a container. *)
Definition scrollToIndex (p : Props) (containerRef : option Surface)
    (newIndex : Z) (behavior : ScrollBehavior) : list Command :=
  match containerRef with
  | None => []
  | Some el => [ScrollTo (target p el newIndex) behavior]
  end.

(** The index nearest to the current offset; [snapToClosest] and the
    animation-frame callback of [handleScroll] compute it alike:
<<
    if (centered) index = Math.round(scrollTop / ITEM_HEIGHT);
    else index = maxScrollTop <= 0 ? 0
               : Math.round((scrollTop / maxScrollTop) * (items.length - 1));
    index = clamp(index, 0, items.length - 1);
>> *)
Definition closestIndex (p : Props) (el : Surface) : Z :=
  let maxScrollTop := scrollHeight el - clientHeight el in
  let index :=
    if centered p then Math_round (scrollTop el / inject_Z ITEM_HEIGHT)
    else if maxScrollTop <=? 0 then 0
         else Math_round ((scrollTop el / inject_Z maxScrollTop)
                          * inject_Z (count p - 1)) in
  clamp index 0 (count p - 1).

(** [if (newValue !== value) onChange(newValue)] *)
Definition publishIfChanged (p : Props) (newValue : Z) : list Command :=
  if newValue =? selected p then [] else [OnChange newValue].

(** [snapToClosest(el)]: [items[index].value] raises when there is no
    such item. *)
Definition snapToClosest (p : Props) (containerRef : option Surface)
    (el : Surface) : Outcome (list Command) :=
  let index := closestIndex p el in
  match itemAt (items p) index with
  | None => Throws TypeError
  | Some it =>
      Returns (publishIfChanged p (value it)
               ++ scrollToIndex p containerRef index Smooth)
  end.

(** The callback [handleScroll] hands to [requestAnimationFrame]. *)
Definition frameCallback (p : Props) (el : Surface) : Outcome (list Command) :=
  let index := closestIndex p el in
  match itemAt (items p) index with
  | None => Throws TypeError
  | Some it => Returns (publishIfChanged p (value it))
  end.

(** The effect that keeps the wheel in sync with the [value] prop:
<<
    const ix = findIndex(value);
    if (ix < 0 || !containerRef.current) return;
    ...
    if (Math.abs(el.scrollTop - target) > 2 && !isUserScrollingRef.current)
      scrollToIndex(ix, "smooth");
>> *)
Definition syncEffect (p : Props) (containerRef : option Surface)
    (isUserScrolling : bool) : list Command :=
  let ix := findIndex p (selected p) in
  match containerRef with
  | None => []
  | Some el =>
      if ix <? 0 then []
      else if negb (Qle_bool (Qabs (scrollTop el - target p el ix)) 2)
              && negb isUserScrolling
           then scrollToIndex p containerRef ix Smooth
           else []
  end.

(** The click handler of one rendered item. *)
Definition onClick (p : Props) (containerRef : option Surface)
    (item : WheelItem) : list Command :=
  let ix := findIndex p (value item) in
  publishIfChanged p (value item)
  ++ match containerRef with
     | None => []
     | Some el =>
         if negb (Qle_bool (Qabs (scrollTop el - target p el ix)) 1)
         then scrollToIndex p containerRef ix Smooth
         else []
     end.

End Wheel.

(** ** The wheel over time *)

Module WheelMachine.

Import Wheel.

(** Who started the smooth scroll the surface is carrying out. *)
Inductive Origin : Type := BySnap | BySync | ByClick.

(** A mounted wheel between two events.  The refs are the component's;
    a pending timer or animation frame is kept with the props its
    callback closed over.  [inFlight] is the browser's side of the
    surface: the smooth scroll it has been asked for and has not yet
    finished. *)
Record State : Type := mkState {
  props : Props;
  surface : Surface;
  isUserScrollingRef : bool;
  snapTimeoutRef : option Props;
  animationFrameRef : option Props;
  inFlight : option (Origin * Q)
}.

Inductive Event : Type :=
| Scroll (top : Q)            (* the surface moved and fired [onScroll] *)
| AnimationFrame              (* the requested frame callback runs *)
| SnapTimeout                 (* the 120 ms timer expires *)
| Render (p : Props)          (* the parent renders new props; effects run *)
| Click (item : WheelItem).   (* a rendered item is clicked *)

Definition isRender (e : Event) : bool :=
  match e with
  | Render _ => true
  | _ => false
  end.

Definition isSnapTimeout (e : Event) : bool :=
  match e with
  | SnapTimeout => true
  | _ => false
  end.

Definition moveTo (el : Surface) (top : Q) : Surface :=
  mkSurface top (scrollHeight el) (clientHeight el).

(** A smooth [scrollTo] replaces the scroll in flight; one that asks for
    the offset the surface is at starts nothing. *)
Fixpoint launch (o : Origin) (el : Surface) (cmds : list Command)
    (cur : option (Origin * Q)) : option (Origin * Q) :=
  match cmds with
  | [] => cur
  | ScrollTo top _ :: rest =>
      launch o el rest
        (if Qeq_bool top (scrollTop el) then None else Some (o, top))
  | OnChange _ :: rest => launch o el rest cur
  end.

(** The scroll in flight is over once the surface reports its target. *)
Definition arrive (top : Q) (cur : option (Origin * Q)) : option (Origin * Q) :=
  match cur with
  | Some (o, goal) => if Qeq_bool top goal then None else cur
  | None => None
  end.

Definition step (w : State) (e : Event) : State * Outcome (list Command) :=
  match e with
  | Scroll top =>
      (* handleScroll: isUserScrollingRef.current = true;
         scheduleSnapToClosest(el); requestAnimationFrame(...) *)
      (mkState (props w) (moveTo (surface w) top) true
               (Some (props w)) (Some (props w))
               (arrive top (inFlight w)),
       Returns [])
  | AnimationFrame =>
      match animationFrameRef w with
      | None => (w, Returns [])
      | Some p =>
          (mkState (props w) (surface w) (isUserScrollingRef w)
                   (snapTimeoutRef w) None (inFlight w),
           frameCallback p (surface w))
      end
  | SnapTimeout =>
      (* () => { snapToClosest(el); isUserScrollingRef.current = false; } *)
      match snapTimeoutRef w with
      | None => (w, Returns [])
      | Some p =>
          match snapToClosest p (Some (surface w)) (surface w) with
          | Returns cmds =>
              (mkState (props w) (surface w) false None
                       (animationFrameRef w)
                       (launch BySnap (surface w) cmds (inFlight w)),
               Returns cmds)
          | Throws e =>
              (mkState (props w) (surface w) (isUserScrollingRef w) None
                       (animationFrameRef w) (inFlight w),
               Throws e)
          end
      end
  | Render p =>
      let cmds := syncEffect p (Some (surface w)) (isUserScrollingRef w) in
      (mkState p (surface w) (isUserScrollingRef w)
               (snapTimeoutRef w) (animationFrameRef w)
               (launch BySync (surface w) cmds (inFlight w)),
       Returns cmds)
  | Click item =>
      let cmds := onClick (props w) (Some (surface w)) item in
      (mkState (props w) (surface w) (isUserScrollingRef w)
               (snapTimeoutRef w) (animationFrameRef w)
               (launch ByClick (surface w) cmds (inFlight w)),
       Returns cmds)
  end.

(** A run, with what each event made the wheel do. *)
Fixpoint run (w : State) (es : list Event)
    : State * list (Event * Outcome (list Command)) :=
  match es with
  | [] => (w, [])
  | e :: rest =>
      let (w1, out) := step w e in
      let (w2, log) := run w1 rest in
      (w2, (e, out) :: log)
  end.

(** The states of the specification's controller, read off a wheel:
    the user is scrolling while the component's own flag says so; the
    wheel is settling while the scroll issued by the snap is in flight. *)
Inductive Phase : Type := Idle | UserScrolling | SettlingSnap | ProgrammaticScroll.

Definition phase (w : State) : Phase :=
  if isUserScrollingRef w then UserScrolling
  else match inFlight w with
       | Some (BySnap, _) => SettlingSnap
       | Some (_, _) => ProgrammaticScroll
       | None => Idle
       end.

(** A wheel at rest, freshly mounted. *)
Definition mounted (p : Props) (el : Surface) : State :=
  mkState p el false None None None.

End WheelMachine.

(** ** The composite picker *)

Module Picker.

Import Wheel.

(** The three controlled values [year], [month] (1-12) and [day]. *)
Record DateState : Type := mkDate { year : Z; month : Z; day : Z }.

Definition eqb (a b : DateState) : bool :=
  (year a =? year b) && (month a =? month b) && (day a =? day b).

(** The props the logic depends on; [onChange] is optional and only its
    presence matters here. *)
Record Config : Type :=
  mkConfig { minYear : Z; maxYear : Z; onChangeSupplied : bool }.

(** [dayjs(jalaliStr, { jalali: true }).calendar("gregory").format("YYYY-MM-DD")]:
    the conversion is the library's and is kept symbolic. *)
Inductive GregorianIso : Type := gregoryFormat (jalaliStr : string).

(** [type PickerChangeValue = { jalali: string; gregorian: string }] *)
Record PickerChangeValue : Type :=
  mkChange { jalali : string; gregorian : GregorianIso }.

Definition pad2 (z : Z) : string := padStart 2 "0" (toString z).

(** [`${year}-${String(month).padStart(2, "0")}-${String(day).padStart(2, "0")}`] *)
Definition jalaliStr (s : DateState) : string :=
  (toString (year s) ++ "-" ++ pad2 (month s) ++ "-" ++ pad2 (day s))%string.

(** The argument the debounced callback hands to [onChange]. *)
Definition changeValue (s : DateState) : PickerChangeValue :=
  mkChange (jalaliStr s) (gregoryFormat (jalaliStr s)).

(** The initial values of the three [useState] cells. *)
Definition initialState (cfg : Config) (initial : JDate) : DateState :=
  mkDate (clamp (jYear initial) (minYear cfg) (maxYear cfg))
         (jMonth initial + 1)
         (jDay initial).

Fixpoint yearsDown (n : nat) (y : Z) : list WheelItem :=
  match n with
  | O => []
  | S k => mkItem y (toString y) :: yearsDown k (y - 1)
  end.

(** [for (let y = maxYear; y >= minYear; y--) yearItems.push(...)] *)
Definition yearItems (cfg : Config) : list WheelItem :=
  yearsDown (Z.to_nat (maxYear cfg - minYear cfg + 1)) (maxYear cfg).

Definition faMonths : list string :=
  ["فروردین"; "اردیبهشت"; "خرداد"; "تیر"; "مرداد"; "شهریور";
   "مهر"; "آبان"; "آذر"; "دی"; "بهمن"; "اسفند"]%string.

Fixpoint mapi {A B : Type} (f : A -> Z -> B) (i : Z) (l : list A) : list B :=
  match l with
  | [] => []
  | a :: rest => f a i :: mapi f (i + 1) rest
  end.

(** [faMonths.map((m, i) => ({ value: i + 1, label: m }))] *)
Definition monthItems : list WheelItem :=
  mapi (fun m i => mkItem (i + 1) m) 0 faMonths.

(** [Array.from({ length: daysInMonth }, (_, i) => ({ value: i + 1, ... }))] *)
Definition dayItems (daysInMonth : Z) : list WheelItem :=
  map (fun i => let v := Z.of_nat i + 1 in mkItem v (pad2 v))
      (seq 0 (Z.to_nat daysInMonth)).

Inductive Mutation : Type :=
| SetYear (v : Z)
| SetMonth (v : Z)
| SetDay (v : Z).

Definition apply (m : Mutation) (s : DateState) : DateState :=
  match m with
  | SetYear v => mkDate v (month s) (day s)
  | SetMonth v => mkDate (year s) v (day s)
  | SetDay v => mkDate (year s) (month s) v
  end.

(** What the outside can see: a render with the values handed to the
    wheels and to the preview, and a call of the [onChange] prop at an
    instant. *)
Inductive Observation : Type :=
| Rendered (s : DateState)
| Notified (at_ : Z) (v : PickerChangeValue).

Definition isNotified (o : Observation) : bool :=
  match o with
  | Notified _ _ => true
  | Rendered _ => false
  end.

(** The picker between two events: the state cells and the timer of
    [useDebouncedCallback], kept with the instant it is due and the state
    its callback closed over. *)
Record State : Type :=
  mkState { date : DateState; timerRef : option (Z * DateState) }.

(** The delay [emitChange] is created with. *)
Definition DELAY : Z := 150.

Inductive Event : Type :=
| Mutate (m : Mutation)   (* a wheel calls [setYear], [setMonth] or [setDay] *)
| Rerender.               (* the parent renders the picker again *)

Section WithLeap.

Variable leap : Z -> bool.

(** The constant [daysInMonth] of a render. *)
Definition daysIn (s : DateState) : Z := daysInMonth leap (year s) (month s).

(** The props of the day wheel in a render. *)
Definition dayWheel (centered : bool) (s : DateState) : Props :=
  mkProps (dayItems (daysIn s)) (day s) centered.

(** One render of state [s] at instant [now] and the effects that follow
    it, in the order they are declared:
<<
  useEffect(() => { if (day > daysInMonth) setDay(daysInMonth); }, ...);
  useEffect(() => { emitChange(); }, [year, month, day, emitChange]);
>>
    [emitChange] clears the pending timer and sets a new one ([cb] is a
    new closure in every render, so this effect runs after every
    render); a [setDay] that changes the day causes the next render. *)
Fixpoint commit (fuel : nat) (now : Z) (s : DateState)
    : State * list Observation :=
  let dim := daysIn s in
  let armed := Some (now + DELAY, s) in
  if dim <? day s then
    match fuel with
    | O => (mkState s armed, [Rendered s])
    | S k =>
        let (w, obs) := commit k now (apply (SetDay dim) s) in
        (w, Rendered s :: obs)
    end
  else (mkState s armed, [Rendered s]).

(** Two renders are all a commit can take; see [commit_fuel]. *)
Definition render (now : Z) (s : DateState) : State * list Observation :=
  commit 1 now s.

(** The debounce timer fires when it is due: [onChange?.(...)]. *)
Definition fire (cfg : Config) (now : Z) (w : State)
    : State * list Observation :=
  match timerRef w with
  | Some (due, s) =>
      if due <=? now
      then (mkState (date w) None,
            if onChangeSupplied cfg then [Notified due (changeValue s)] else [])
      else (w, [])
  | None => (w, [])
  end.

(** A state setter with the value the cell already holds does not
    render. *)
Definition handle (now : Z) (e : Event) (w : State)
    : State * list Observation :=
  match e with
  | Mutate m =>
      let s := apply m (date w) in
      if eqb s (date w) then (w, []) else render now s
  | Rerender => render now (date w)
  end.

(** An event at instant [now]: a timer that is due fires first. *)
Definition step (cfg : Config) (w : State) (now : Z) (e : Event)
    : State * list Observation :=
  let (w1, obs1) := fire cfg now w in
  let (w2, obs2) := handle now e w1 in
  (w2, obs1 ++ obs2).

Fixpoint run (cfg : Config) (w : State) (es : list (Z * Event))
    : State * list Observation :=
  match es with
  | [] => (w, [])
  | (now, e) :: rest =>
      let (w1, obs1) := step cfg w now e in
      let (w2, obs2) := run cfg w1 rest in
      (w2, obs1 ++ obs2)
  end.

(** The events of a timeline, then quiet until instant [till]. *)
Definition runUntil (cfg : Config) (w : State) (es : list (Z * Event))
    (till : Z) : State * list Observation :=
  let (w1, obs1) := run cfg w es in
  let (w2, obs2) := fire cfg till w1 in
  (w2, obs1 ++ obs2).

(** Mounting at instant [now] with the resolved initial date. *)
Definition mount (cfg : Config) (initial : JDate) (now : Z)
    : State * list Observation :=
  render now (initialState cfg initial).

(** The picker states that mounting and events lead to. *)
Inductive reachable (cfg : Config) : State -> Prop :=
| reach_mount : forall initial now,
    reachable cfg (fst (mount cfg initial now))
| reach_step : forall w now e,
    reachable cfg w -> reachable cfg (fst (step cfg w now e)).

(** Every event of the timeline is a setter call that changes the state
    it finds. *)
Fixpoint effective (w : State) (es : list (Z * Event)) : Prop :=
  match es with
  | [] => True
  | (now, e) :: rest =>
      (exists m, e = Mutate m /\ eqb (apply m (date w)) (date w) = false)
      /\ effective (fst (handle now e w)) rest
  end.

(** The state with the day brought down to the length of its month. *)
Definition clamped (s : DateState) : DateState :=
  mkDate (year s) (month s) (Z.min (day s) (daysIn s)).

(** What holds of every state the picker rests in: the day fits the month,
    and a pending notification closes over the very state the picker
    holds. *)
Definition settled (w : State) : Prop :=
  day (date w) <= daysIn (date w)
  /\ forall due s, timerRef w = Some (due, s) -> s = date w.

End WithLeap.

Definition notifications (obs : list Observation) : list Observation :=
  filter isNotified obs.

Fixpoint rendersOf (obs : list Observation) : list DateState :=
  match obs with
  | [] => []
  | Rendered s :: rest => s :: rendersOf rest
  | Notified _ _ :: rest => rendersOf rest
  end.

(** Instants in order, each strictly less than [DELAY] after the one
    before: a burst inside the debounce window. *)
Fixpoint burst (prev : Z) (es : list (Z * Event)) : Prop :=
  match es with
  | [] => True
  | (now, _) :: rest => prev <= now < prev + DELAY /\ burst now rest
  end.

(** The instant of the last event of a timeline that starts at [prev]. *)
Fixpoint lastInstant (prev : Z) (es : list (Z * Event)) : Z :=
  match es with
  | [] => prev
  | (now, _) :: rest => lastInstant now rest
  end.

End Picker.

(** ** The specification's formulas, in its own words *)

Module Spec.

(** "Centered mode: index = round(offset / itemHeight), clamped to
    [0, itemCount-1].  Linear mode: index = round((offset /
    maxScrollOffset) * (itemCount - 1)), with maxScrollOffset <= 0 forced
    to index 0", the linear index clamped to the same range. *)
Definition index (centeredMode : bool) (offset : Q)
    (itemHeight maxScrollOffset itemCount : Z) : Z :=
  if centeredMode
  then clamp (Math_round (offset / inject_Z itemHeight)) 0 (itemCount - 1)
  else if 0 <? maxScrollOffset
       then clamp (Math_round ((offset / inject_Z maxScrollOffset)
                               * inject_Z (itemCount - 1)))
                  0 (itemCount - 1)
       else 0.

(** "the exact offset for that index (index * itemHeight centered, or the
    proportional offset linear)": the proportional offset is
    (index / (itemCount - 1)) * maxScrollOffset, and 0 when there is only
    one item. *)
Definition offset (centeredMode : bool) (index : Z)
    (itemHeight maxScrollOffset itemCount : Z) : Q :=
  if centeredMode then inject_Z (index * itemHeight)
  else if itemCount =? 1 then 0
       else (inject_Z index / inject_Z (itemCount - 1))
            * inject_Z maxScrollOffset.

End Spec.

(** ** Worked inputs *)

Module Example.

Import Wheel.

(** The month wheel in centered mode with Farvardin selected, five rows
    visible: twelve rows and two spacers of two rows each. *)
Definition monthProps : Props := mkProps Picker.monthItems 1 true.

Definition monthSurface : Surface := mkSurface 0 (44 * 16) (44 * 5).

Definition monthWheel : WheelMachine.State :=
  WheelMachine.mounted monthProps monthSurface.

(** A picker for the years 1300 to 1410 with an [onChange] prop. *)
Definition cfg : Picker.Config := Picker.mkConfig 1300 1410 true.

(** 31 Shahrivar 1403. *)
Definition shahrivar31 : JDate := mkJDate 1403 5 31.

End Example.

(** ** Timelines of the picker *)

Module Timeline.

Import Wheel Picker.

(** A setter call that a wheel of the picker can make: [onChange] is only
    ever called with the value of an item, so the year comes from
    [yearItems], the month from [monthItems] and the day from the
    [dayItems] of some render (the handlers close over the items of the
    render they were created in). *)
Definition fromWheel (leap : Z -> bool) (cfg : Config) (e : Event) : Prop :=
  match e with
  | Mutate (SetYear v) => In v (map value (yearItems cfg))
  | Mutate (SetMonth v) => In v (map value monthItems)
  | Mutate (SetDay v) =>
      exists y m, In v (map value (dayItems (daysInMonth leap y m)))
  | Rerender => True
  end.

Fixpoint allFromWheel (leap : Z -> bool) (cfg : Config)
    (es : list (Z * Event)) : Prop :=
  match es with
  | [] => True
  | (_, e) :: rest => fromWheel leap cfg e /\ allFromWheel leap cfg rest
  end.

(** A date of the calendar within the picker's years. *)
Definition validDate (leap : Z -> bool) (cfg : Config) (s : DateState) : Prop :=
  minYear cfg <= year s <= maxYear cfg
  /\ 1 <= month s <= 12
  /\ 1 <= day s <= daysIn leap s.

(** The instants of a timeline do not go back. *)
Fixpoint ordered (prev : Z) (es : list (Z * Event)) : Prop :=
  match es with
  | [] => True
  | (now, _) :: rest => prev <= now /\ ordered now rest
  end.

(** The instants at which [onChange] was called. *)
Fixpoint stamps (obs : list Observation) : list Z :=
  match obs with
  | [] => []
  | Notified t _ :: rest => t :: stamps rest
  | Rendered _ :: rest => stamps rest
  end.

(** Each instant is at least [DELAY] after the one before, the first at
    least [DELAY] after [last]. *)
Fixpoint spacedAfter (last : Z) (ts : list Z) : Prop :=
  match ts with
  | [] => True
  | t :: rest => last + DELAY <= t /\ spacedAfter t rest
  end.

End Timeline.

(** * Properties *)

Import Wheel WheelMachine.

(** ** Helpers *)

Lemma clamp_bounds (v lo hi : Z) : lo <= hi -> lo <= clamp v lo hi <= hi.
Proof. unfold clamp. lia. Qed.

Lemma clamp_empty_range (v : Z) : clamp v 0 (-1) = 0.
Proof. unfold clamp. lia. Qed.

Lemma count_pos (p : Props) : items p <> [] -> 1 <= count p.
Proof.
  unfold count. destruct (items p) as [|it rest]; [congruence|].
  intros _. cbn [List.length]. lia.
Qed.

Lemma itemAt_in_range (l : list WheelItem) (i : Z) :
  0 <= i <= Z.of_nat (List.length l) - 1 -> exists it, itemAt l i = Some it.
Proof.
  intros Hi. unfold itemAt.
  destruct (Z.ltb_spec i 0) as [Hneg|_]; [lia|].
  destruct (nth_error l (Z.to_nat i)) as [it|] eqn:E.
  - now exists it.
  - apply nth_error_None in E. lia.
Qed.

Lemma closestIndex_bounds (p : Props) (el : Surface) :
  items p <> [] -> 0 <= closestIndex p el <= count p - 1.
Proof.
  intros Hne. pose proof (count_pos p Hne) as Hc.
  unfold closestIndex. apply clamp_bounds. lia.
Qed.

Lemma closestIndex_item (p : Props) (el : Surface) :
  items p <> [] -> exists it, itemAt (items p) (closestIndex p el) = Some it.
Proof.
  intros Hne. apply itemAt_in_range.
  pose proof (closestIndex_bounds p el Hne). unfold count in *. lia.
Qed.




(** ** The index is in bounds; an empty year list is not (C9) *)

(** C9.  For a wheel with at least one item, the index that the snap and
    the per-frame callback compute lies in [0, items.length - 1] and
    [items[index]] exists, so neither raises.  The precondition is needed:
    a picker with [minYear > maxYear] builds an empty year list, the index
    is then 0, [items[0]] is [undefined], and both handlers raise on
    [items[index].value]. *)
Theorem index_in_bounds_unless_empty
    (p : Props) (cfg : Picker.Config) (el : Surface) (sel : Z) (c : bool) :
  items p <> [] ->
  Picker.maxYear cfg < Picker.minYear cfg ->
  (0 <= closestIndex p el <= count p - 1
   /\ (exists it, itemAt (items p) (closestIndex p el) = Some it
                  /\ snapToClosest p (Some el) el
                     = Returns (publishIfChanged p (value it)
                                ++ scrollToIndex p (Some el) (closestIndex p el) Smooth)
                  /\ frameCallback p el = Returns (publishIfChanged p (value it))))
  /\ (Picker.yearItems cfg = []
      /\ closestIndex (mkProps (Picker.yearItems cfg) sel c) el = 0
      /\ itemAt (Picker.yearItems cfg) 0 = None
      /\ snapToClosest (mkProps (Picker.yearItems cfg) sel c) (Some el) el = Throws TypeError
      /\ frameCallback (mkProps (Picker.yearItems cfg) sel c) el = Throws TypeError).
Proof.
  intros Hne Hcfg. split.
  - split; [now apply closestIndex_bounds|].
    destruct (closestIndex_item p el Hne) as [it Hit].
    exists it. unfold snapToClosest, frameCallback. rewrite Hit. auto.
  - assert (Hnil : Picker.yearItems cfg = []).
    { unfold Picker.yearItems.
      replace (Z.to_nat (Picker.maxYear cfg - Picker.minYear cfg + 1)) with O by lia.
      reflexivity. }
    assert (Hix : closestIndex (mkProps (Picker.yearItems cfg) sel c) el = 0).
    { unfold closestIndex, count. cbn [items]. rewrite Hnil. cbn [List.length].
      change (Z.of_nat 0 - 1) with (-1). apply clamp_empty_range. }
    repeat split; try assumption.
    + now rewrite Hnil.
    + unfold snapToClosest. rewrite Hix. cbn [items]. now rewrite Hnil.
    + unfold frameCallback. rewrite Hix. cbn [items]. now rewrite Hnil.
Qed.

Lemma index_in_bounds_unless_empty_witness :
  (0 <= closestIndex Example.monthProps (mkSurface 100 704 220) <= 11)
  /\ Picker.yearItems (Picker.mkConfig 1303 1302 true) = [].
Proof.
  pose proof (index_in_bounds_unless_empty Example.monthProps
                (Picker.mkConfig 1303 1302 true) (mkSurface 100 704 220) 1303 true)
    as H.
  destruct H as [[Hb _] [Hy _]].
  - discriminate.
  - cbn. lia.
  - split; [exact Hb | exact Hy].
Defined.

(** ** From offset to index, and publication during the gesture (C4) *)



(** ** The snap lands on an item (C5) *)



(** The snap is stable: at the exact offset of an index the nearest index
    is that index again, so a second snap asks for the same offset. *)
Lemma round_integer (i : Z) (x : Q) : x == inject_Z i -> Math_round x = i.
Proof.
  intros E. unfold Math_round. rewrite E.
  unfold Qfloor, Qplus, inject_Z. cbn [Qnum Qden].
  change (Z.pos (1 * 2)) with 2.
  rewrite Z.mul_1_l, Z.div_add_l by lia.
  change (1 / 2) with 0. lia.
Qed.

Lemma inject_Z_nonzero (z : Z) : z <> 0 -> ~ inject_Z z == 0.
Proof. intros Hz E. apply Hz. revert E. unfold Qeq. cbn. lia. Qed.

Lemma snap_is_stable (p : Props) (el : Surface) (i : Z) :
  items p <> [] ->
  0 <= i <= count p - 1 ->
  centered p = true \/ 0 < scrollHeight el - clientHeight el ->
  closestIndex p (moveTo el (target p el i)) = i.
Proof.
  intros Hne Hi Hmode. pose proof (count_pos p Hne) as Hc.
  unfold closestIndex, target. cbn [moveTo scrollTop scrollHeight clientHeight].
  set (mx := scrollHeight el - clientHeight el) in *.
  assert (Hclamp : clamp i 0 (count p - 1) = i) by (unfold clamp; lia).
  destruct (centered p).
  - rewrite (round_integer i); [exact Hclamp|].
    unfold ITEM_HEIGHT. rewrite inject_Z_mult. field.
  - destruct Hmode as [Hm|Hm]; [discriminate|].
    destruct (Z.leb_spec mx 0); [lia|].
    assert (Hmx : ~ inject_Z mx == 0) by (apply inject_Z_nonzero; lia).
    destruct (Z.ltb_spec 1 (count p)) as [Hn|Hn].
    + rewrite (round_integer i); [exact Hclamp|].
      field. split; [apply inject_Z_nonzero; lia | exact Hmx].
    + assert (i = 0) by lia. subst i.
      rewrite (round_integer 0); [exact Hclamp|].
      replace (count p - 1) with 0 by lia. field. exact Hmx.
Qed.

(** ** Click to select (C8) *)

Lemma findIndexFrom_nth (l : list WheelItem) :
  forall (k : Z) (i : nat) (item : WheelItem),
    NoDup (map value l) ->
    nth_error l i = Some item ->
    findIndexFrom k l (value item) = k + Z.of_nat i.
Proof.
  induction l as [|hd tl IH]; intros k i item Hnd Hnth.
  - destruct i; discriminate.
  - cbn [map] in Hnd. inversion Hnd as [|v vs Hnotin Hnd']; subst.
    destruct i as [|j]; cbn [nth_error] in Hnth.
    + injection Hnth as ->. cbn [findIndexFrom]. rewrite Z.eqb_refl. lia.
    + cbn [findIndexFrom].
      destruct (Z.eqb_spec (value hd) (value item)) as [Heq|Hneq].
      * exfalso. apply Hnotin. rewrite Heq.
        apply in_map. eapply nth_error_In; eassumption.
      * rewrite (IH (k + 1) j item Hnd' Hnth). lia.
Qed.




(** ** External updates and the gesture (C3) *)

Lemma sync_silent_while_scrolling (w : State) (p : Props) :
  isUserScrollingRef w = true -> snd (step w (Render p)) = Returns [].
Proof.
  intros Hflag. cbn [step snd]. unfold syncEffect. rewrite Hflag.
  destruct (findIndex p (selected p) <? 0); [reflexivity|].
  rewrite andb_false_r. reflexivity.
Qed.

Lemma flag_kept (w : State) (e : Event) :
  isSnapTimeout e = false ->
  isUserScrollingRef w = true ->
  isUserScrollingRef (fst (step w e)) = true.
Proof.
  intros He Hflag. destruct e; try discriminate; cbn [step fst]; auto.
  destruct (animationFrameRef w); assumption.
Qed.

Lemma run_cons (w : State) (e : Event) (es : list Event) :
  run w (e :: es)
  = (fst (run (fst (step w e)) es),
     (e, snd (step w e)) :: snd (run (fst (step w e)) es)).
Proof.
  cbn [run]. destruct (step w e) as [w1 out].
  cbn [fst snd]. destruct (run w1 es). reflexivity.
Qed.

Lemma renders_silent_while_scrolling (es : list Event) :
  forall w,
    isUserScrollingRef w = true ->
    forallb (fun e => negb (isSnapTimeout e)) es = true ->
    forall e out,
      In (e, out) (snd (run w es)) -> isRender e = true -> out = Returns [].
Proof.
  induction es as [|e0 rest IH]; intros w Hflag Hquiet e out Hin Hrender.
  - destruct Hin.
  - cbn [forallb] in Hquiet. apply andb_prop in Hquiet as [He0 Hrest].
    apply negb_true_iff in He0.
    rewrite run_cons in Hin. cbn [snd] in Hin. destruct Hin as [Heq|Hin].
    + injection Heq as <- <-. destruct e0; try discriminate.
      now apply sync_silent_while_scrolling.
    + apply (IH (fst (step w e0)) (flag_kept w e0 He0 Hflag) Hrest e out Hin Hrender).
Qed.

(** C3, as the claim has it, fails in the settling phase: the snap timer
    clears the flag as soon as it has issued the snap, so the value change
    that the snap itself published comes back while the surface is still at
    offset 100 and makes the sync effect issue a scroll of its own. *)
Lemma sync_scrolls_while_snap_in_flight :
  let w2 := fst (run Example.monthWheel [Scroll (100 # 1); SnapTimeout]) in
  phase w2 = SettlingSnap
  /\ snd (step w2 (Render (mkProps Picker.monthItems 3 true)))
     = Returns [ScrollTo (88 # 1) Smooth].
Proof. vm_compute. split; reflexivity. Qed.

(** C3, amended.  From a scroll event until the snap timer expires, the
    wheel's flag [isUserScrollingRef] stays set and no render with a new
    value makes the sync effect issue a scroll command, whatever the value
    and however far the surface is from it. *)
Theorem no_sync_scroll_before_snap_timeout
    (w : State) (top : Q) (es : list Event) :
  forallb (fun e => negb (isSnapTimeout e)) es = true ->
  phase (fst (run w (Scroll top :: es))) = UserScrolling
  /\ forall e out,
       In (e, out) (snd (run w (Scroll top :: es))) ->
       isRender e = true ->
       out = Returns [].
Proof.
  intros Hquiet. split.
  - rewrite run_cons. cbn [fst].
    assert (H : forall es' w', isUserScrollingRef w' = true ->
              forallb (fun e => negb (isSnapTimeout e)) es' = true ->
              isUserScrollingRef (fst (run w' es')) = true).
    { induction es' as [|e0 rest IH]; intros w' Hf Hq; [exact Hf|].
      cbn [forallb] in Hq. apply andb_prop in Hq as [He0 Hrest].
      apply negb_true_iff in He0.
      rewrite run_cons. cbn [fst]. apply IH; auto using flag_kept. }
    unfold phase. rewrite H; auto.
  - intros e out Hin Hrender.
    rewrite run_cons in Hin. cbn [snd] in Hin. destruct Hin as [Heq|Hin].
    + injection Heq as <- _. discriminate.
    + exact (renders_silent_while_scrolling es (fst (step w (Scroll top)))
               eq_refl Hquiet e out Hin Hrender).
Qed.

Lemma no_sync_scroll_before_snap_timeout_witness :
  phase (fst (run Example.monthWheel
                [Scroll (100 # 1); Render (mkProps Picker.monthItems 7 true)]))
  = UserScrolling
  /\ snd (step (fst (step Example.monthWheel (Scroll (100 # 1))))
               (Render (mkProps Picker.monthItems 7 true)))
     = Returns [].
Proof.
  pose proof (no_sync_scroll_before_snap_timeout Example.monthWheel (100 # 1)
                [Render (mkProps Picker.monthItems 7 true)] eq_refl) as [Hp H].
  split; [exact Hp|].
  apply (H (Render (mkProps Picker.monthItems 7 true))); [|reflexivity].
  right. left. reflexivity.
Defined.

(** ** Initial date resolution (C2) *)

Section Resolution.

Variable jset : Unit -> JDate -> Z -> Dayjs.t.
Variable today : JDate.


Lemma not_a_date_falls_back :
  resolveInitial jset today (Some "not-a-date"%string) = Returns (Valid today).
Proof. reflexivity. Qed.

(** Three numbers are handed to the setters as they are; the component
    checks nothing but [isValid()] on what comes back. *)
Lemma finite_pieces_go_to_the_setters (y m d : Z) (rest : list jsnum) :
  resolveParts jset today (Fin y :: Fin m :: Fin d :: rest)
  = Returns
      (match accessor jset UYear (Valid today) (Num (Fin y)) with
       | VObject o1 =>
           match accessor jset UMonth o1 (Num (Fin (m - 1))) with
           | VObject o2 =>
               match accessor jset UDate o2 (Num (Fin d)) with
               | VObject o3 => if isValid o3 then o3 else Valid today
               | VNumber _ => Valid today
               end
           | VNumber _ => Valid today
           end
       | VNumber _ => Valid today
       end).
Proof.
  unfold resolveParts, parsedChain. cbn.
  destruct (jset UYear today y) as [d1|]; cbn;
    [destruct (jset UMonth d1 (m - 1)) as [d2|]; cbn|]; reflexivity.
Qed.

(** C2.  The resolution does raise: on a string with fewer than three
    pieces the day is [undefined], [.date(undefined)] reads the day
    instead of setting it and returns a number, and [parsed.isValid()]
    is then a call on a number.  The fallback is not returned. *)
Theorem short_date_string_raises :
  resolveInitial jset today (Some "1400-05"%string) = Throws TypeError.
Proof. reflexivity. Qed.

End Resolution.

(** ** Days in a month (C7) *)

(** C7.  For every leap-year rule, every year and every month from 1 to
    12, [daysInMonth] is 29, 30 or 31; it is below 30 only for month 12
    (Esfand), which has 30 days in a leap year and 29 otherwise; and equal
    arguments give equal results. *)
Theorem daysInMonth_range (leap : Z -> bool) (y m : Z) :
  1 <= m <= 12 ->
  29 <= daysInMonth leap y m <= 31
  /\ (daysInMonth leap y m < 30 -> m = 12)
  /\ (m = 12 -> daysInMonth leap y m = if leap y then 30 else 29)
  /\ (forall y' m', y' = y -> m' = m ->
        daysInMonth leap y' m' = daysInMonth leap y m).
Proof.
  intros Hm.
  assert (Hfun : forall y' m', y' = y -> m' = m ->
            daysInMonth leap y' m' = daysInMonth leap y m)
    by (intros y' m' -> ->; reflexivity).
  repeat split; try exact Hfun; unfold daysInMonth;
    destruct (Z.leb_spec m 6), (Z.leb_spec m 11), (leap y);
    intros; try lia; reflexivity.
Qed.

Lemma daysInMonth_range_witness :
  29 <= daysInMonth leap33 1402 12 <= 31
  /\ daysInMonth leap33 1402 12 = 29
  /\ daysInMonth leap33 1403 12 = 30.
Proof.
  destruct (daysInMonth_range leap33 1402 12) as (Hr & _ & H2 & _); [lia|].
  destruct (daysInMonth_range leap33 1403 12) as (_ & _ & H3 & _); [lia|].
  split; [exact Hr|]. split; [exact (H2 eq_refl) | exact (H3 eq_refl)].
Defined.

(** ** The composite picker: renders and the day clamp (C1) *)

Import Picker.

Section PickerProperties.

Variable leap : Z -> bool.

Lemma render_eq (now : Z) (s : DateState) :
  render leap now s
  = (mkState (clamped leap s) (Some (now + DELAY, clamped leap s)),
     if daysIn leap s <? day s then [Rendered s; Rendered (clamped leap s)]
     else [Rendered s]).
Proof.
  unfold render, clamped. cbn [commit].
  destruct (Z.ltb_spec (daysIn leap s) (day s)) as [Hover|Hfit].
  - rewrite Z.min_r by lia.
    unfold daysIn at 1. cbn [apply year month day].
    fold (daysIn leap s). rewrite Z.ltb_irrefl. reflexivity.
  - rewrite Z.min_l by lia. destruct s; reflexivity.
Qed.

(** More fuel changes nothing: a commit never takes more than two
    renders. *)
Lemma commit_fuel (n : nat) (now : Z) (s : DateState) :
  commit leap (S n) now s = render leap now s.
Proof.
  unfold render. cbn [commit].
  destruct (daysIn leap s <? day s); [|reflexivity].
  unfold daysIn. cbn [apply year month day].
  destruct n; cbn [commit]; unfold daysIn; cbn [year month day];
    rewrite Z.ltb_irrefl; reflexivity.
Qed.

Lemma clamped_fits (s : DateState) :
  day (clamped leap s) <= daysIn leap (clamped leap s).
Proof. unfold clamped, daysIn. cbn [year month day]. lia. Qed.

Lemma clamped_id (s : DateState) : day s <= daysIn leap s -> clamped leap s = s.
Proof.
  intros H. unfold clamped. rewrite Z.min_l by lia. destruct s; reflexivity.
Qed.

Lemma fire_date (cfg : Config) (now : Z) (w : State) :
  date (fst (fire cfg now w)) = date w.
Proof.
  unfold fire. destruct (timerRef w) as [[due s]|]; [|reflexivity].
  destruct (due <=? now); reflexivity.
Qed.

Lemma fire_timer (cfg : Config) (now : Z) (w : State) (due : Z) (s : DateState) :
  timerRef (fst (fire cfg now w)) = Some (due, s) -> timerRef w = Some (due, s).
Proof.
  unfold fire. destruct (timerRef w) as [[due0 s0]|] eqn:E; cbn.
  - destruct (due0 <=? now); cbn; [discriminate|]. now rewrite E.
  - now rewrite E.
Qed.

Lemma step_eq (cfg : Config) (w : State) (now : Z) (e : Event) :
  step leap cfg w now e
  = (fst (handle leap now e (fst (fire cfg now w))),
     snd (fire cfg now w) ++ snd (handle leap now e (fst (fire cfg now w)))).
Proof.
  unfold step. destruct (fire cfg now w) as [w1 obs1]. cbn [fst snd].
  destruct (handle leap now e w1). reflexivity.
Qed.

Lemma render_settled (now : Z) (s : DateState) :
  settled leap (fst (render leap now s)).
Proof.
  rewrite render_eq. split; cbn [fst date timerRef].
  - apply clamped_fits.
  - intros due s' H. now injection H as _ <-.
Qed.

Lemma handle_settled (now : Z) (e : Event) (w : State) :
  settled leap w -> settled leap (fst (handle leap now e w)).
Proof.
  intros Hw. destruct e as [m|]; cbn [handle].
  - destruct (eqb (apply m (date w)) (date w)); [exact Hw|].
    apply render_settled.
  - apply render_settled.
Qed.

Lemma fire_settled (cfg : Config) (now : Z) (w : State) :
  settled leap w -> settled leap (fst (fire cfg now w)).
Proof.
  intros [Hd Ht]. split.
  - now rewrite fire_date.
  - intros due s H. rewrite fire_date. eauto using fire_timer.
Qed.

Lemma reachable_settled (cfg : Config) (w : State) :
  reachable leap cfg w -> settled leap w.
Proof.
  induction 1 as [initial now|w now e _ IH].
  - apply render_settled.
  - rewrite step_eq. cbn [fst]. now apply handle_settled, fire_settled.
Qed.

Lemma rendersOf_app (a b : list Observation) :
  rendersOf (a ++ b) = rendersOf a ++ rendersOf b.
Proof.
  induction a as [|[s|t v] a IH]; cbn [app rendersOf]; [reflexivity| |exact IH].
  now rewrite IH.
Qed.

Lemma fire_obs (cfg : Config) (now : Z) (w : State) :
  snd (fire cfg now w) = []
  \/ exists due s, timerRef w = Some (due, s) /\ due <= now
                   /\ onChangeSupplied cfg = true
                   /\ snd (fire cfg now w) = [Notified due (changeValue s)].
Proof.
  unfold fire. destruct (timerRef w) as [[due s]|]; [|now left].
  destruct (Z.leb_spec due now); [|now left].
  destruct (onChangeSupplied cfg); [|now left].
  right. exists due, s. auto.
Qed.

Lemma fire_renders (cfg : Config) (now : Z) (w : State) :
  rendersOf (snd (fire cfg now w)) = [].
Proof.
  destruct (fire_obs cfg now w) as [->|(due & s & _ & _ & _ & ->)]; reflexivity.
Qed.

Lemma render_obs_not_notified (now : Z) (s : DateState) (t : Z)
    (v : PickerChangeValue) :
  ~ In (Notified t v) (snd (render leap now s)).
Proof.
  rewrite render_eq. cbn [snd].
  destruct (daysIn leap s <? day s); cbn; intuition discriminate.
Qed.

(** C1, amended.  In every state the picker rests in after mounting or
    after an event, [day <= daysInMonth(year, month)].  An event renders at
    most twice: when a change makes the day overflow, one render shows the
    overflowing day, then the clamp effect sets the day to [daysInMonth]
    and the next render hands that value to the day wheel.  A notification
    never carries an overflowing day. *)
Theorem day_fits_month_once_settled
    (cfg : Config) (w : State) (now : Z) (e : Event) :
  reachable leap cfg w ->
  let w' := fst (step leap cfg w now e) in
  let obs := snd (step leap cfg w now e) in
  day (date w) <= daysIn leap (date w)
  /\ day (date w') <= daysIn leap (date w')
  /\ (rendersOf obs = []
      \/ rendersOf obs = [date w']
      \/ exists s, rendersOf obs = [s; date w']
                   /\ daysIn leap s < day s
                   /\ date w' = apply (SetDay (daysIn leap s)) s
                   /\ forall c, selected (dayWheel leap c (date w'))
                                = daysIn leap (date w'))
  /\ (forall t v, In (Notified t v) obs -> v = changeValue (date w)).
Proof.
  intros Hreach w' obs.
  pose proof (reachable_settled cfg w Hreach) as [Hfit Htimer].
  pose proof (reachable_settled cfg w' (reach_step leap cfg w now e Hreach))
    as [Hfit' _].
  split; [exact Hfit|]. split; [exact Hfit'|].
  subst w' obs. rewrite step_eq. cbn [fst snd].
  set (w1 := fst (fire cfg now w)).
  assert (Hw1 : date w1 = date w) by apply fire_date.
  split.
  - rewrite rendersOf_app, fire_renders. cbn [app].
    destruct e as [m|]; cbn [handle].
    + destruct (eqb (apply m (date w1)) (date w1)); [now left|].
      rewrite render_eq. cbn [fst snd date].
      destruct (Z.ltb_spec (daysIn leap (apply m (date w1)))
                           (day (apply m (date w1)))) as [Hover|Hok].
      * right. right. exists (apply m (date w1)).
        repeat split; try assumption.
        -- unfold clamped. rewrite Z.min_r by lia. reflexivity.
        -- intros c. unfold clamped, dayWheel, daysIn.
           cbn [selected year month day]. fold (daysIn leap (apply m (date w1))).
           lia.
      * right. left. now rewrite clamped_id.
    + rewrite render_eq. cbn [fst snd date]. rewrite Hw1.
      destruct (Z.ltb_spec (daysIn leap (date w)) (day (date w))); [lia|].
      right. left. now rewrite clamped_id.
  - intros t v Hin. apply in_app_or in Hin as [Hin|Hin].
    + destruct (fire_obs cfg now w) as [E|(due & s & Ht & _ & _ & E)];
        rewrite E in Hin; [destruct Hin|].
      destruct Hin as [Hin|[]]. injection Hin as _ <-.
      now rewrite (Htimer due s Ht).
    + exfalso. destruct e as [m|]; cbn [handle] in Hin.
      * destruct (eqb (apply m (date w1)) (date w1)); [destruct Hin|].
        eapply render_obs_not_notified; eassumption.
      * eapply render_obs_not_notified; eassumption.
Qed.

End PickerProperties.

(** C1, as the claim has it, fails: with 31 Shahrivar 1403 selected, the
    month wheel publishing Mehr makes the picker render day 31 of a month
    of 30 days, before the clamp effect brings the day down to 30. *)
Lemma month_change_renders_overflowing_day :
  let w := fst (mount leap33 Example.cfg Example.shahrivar31 0) in
  reachable leap33 Example.cfg w
  /\ rendersOf (snd (step leap33 Example.cfg w 1000 (Mutate (SetMonth 7))))
     = [mkDate 1403 7 31; mkDate 1403 7 30]
  /\ daysInMonth leap33 1403 7 < day (mkDate 1403 7 31).
Proof.
  cbv zeta. split; [apply reach_mount|].
  split; [vm_compute; reflexivity|]. vm_compute. reflexivity.
Qed.

Lemma day_fits_month_once_settled_witness :
  let w := fst (mount leap33 Example.cfg Example.shahrivar31 0) in
  let w' := fst (step leap33 Example.cfg w 1000 (Mutate (SetMonth 7))) in
  day (date w') <= daysIn leap33 (date w') /\ date w' = mkDate 1403 7 30.
Proof.
  cbv zeta. split.
  - apply (day_fits_month_once_settled leap33 Example.cfg
             (fst (mount leap33 Example.cfg Example.shahrivar31 0)) 1000
             (Mutate (SetMonth 7))).
    apply reach_mount.
  - vm_compute. reflexivity.
Defined.

(** ** The debounced notification (C6, C10) *)

Section PickerTiming.

Variable leap : Z -> bool.
Variable cfg : Config.

Lemma picker_run_cons (w : State) (now : Z) (e : Event) (rest : list (Z * Event)) :
  run leap cfg w ((now, e) :: rest)
  = (fst (run leap cfg (fst (step leap cfg w now e)) rest),
     snd (step leap cfg w now e)
     ++ snd (run leap cfg (fst (step leap cfg w now e)) rest)).
Proof.
  cbn [run]. destruct (step leap cfg w now e) as [w1 obs1]. cbn [fst snd].
  destruct (run leap cfg w1 rest). reflexivity.
Qed.

Lemma fire_not_due (now : Z) (w : State) :
  (forall due s, timerRef w = Some (due, s) -> now < due) ->
  fire cfg now w = (w, []).
Proof.
  intros H. unfold fire. destruct (timerRef w) as [[due s]|]; [|reflexivity].
  specialize (H due s eq_refl).
  destruct (Z.leb_spec due now); [lia|reflexivity].
Qed.

Lemma render_not_notified (now : Z) (s : DateState) :
  notifications (snd (render leap now s)) = [].
Proof.
  rewrite render_eq. cbn [snd]. now destruct (daysIn leap s <? day s).
Qed.

(** A burst delivers nothing while it lasts and leaves one timer behind,
    due one delay after the last event, closed over the final state. *)
Lemma burst_arms_last (es : list (Z * Event)) :
  forall (w : State) (prev : Z),
    (forall due s, timerRef w = Some (due, s) -> prev + DELAY <= due) ->
    burst prev es ->
    effective leap w es ->
    es <> [] ->
    notifications (snd (run leap cfg w es)) = []
    /\ timerRef (fst (run leap cfg w es))
       = Some (lastInstant prev es + DELAY, date (fst (run leap cfg w es))).
Proof.
  induction es as [|[now e] rest IH]; intros w prev Htimer Hburst Heff Hne;
    [congruence|].
  cbn [burst] in Hburst. destruct Hburst as [Hnow Hrest].
  cbn [effective] in Heff. destruct Heff as [(m & -> & Hchg) Heff].
  assert (Hfire : fire cfg now w = (w, [])).
  { apply fire_not_due. intros due s H. specialize (Htimer due s H). lia. }
  assert (Hstep : step leap cfg w now (Mutate m)
                  = render leap now (apply m (date w))).
  { rewrite step_eq, Hfire. cbn [fst snd handle app]. rewrite Hchg.
    now destruct (render leap now (apply m (date w))). }
  cbn [handle] in Heff. rewrite Hchg in Heff.
  rewrite picker_run_cons, Hstep. cbn [fst snd lastInstant].
  unfold notifications in *. rewrite filter_app.
  fold (notifications (snd (render leap now (apply m (date w))))).
  rewrite render_not_notified. cbn [app].
  destruct rest as [|ev rest'].
  - cbn [run fst snd filter lastInstant]. split; [reflexivity|].
    rewrite render_eq. reflexivity.
  - apply (IH (fst (render leap now (apply m (date w)))) now);
      [|assumption|assumption|discriminate].
    intros due s H. rewrite render_eq in H. cbn [fst timerRef] in H.
    injection H as <- _. lia.
Qed.

(** C6.  From a picker with no notification pending and an [onChange]
    prop, a burst of one or more state changes, each less than the delay
    of 150 after the one before, followed by quiet: nothing is delivered
    before the last change is 150 old, and from then on exactly one
    notification has been delivered, at the instant of the last change
    plus 150, carrying the Jalali string of the final state and the
    Gregorian string derived from it. *)
Theorem burst_is_notified_once
    (w : State) (t1 : Z) (es : list (Z * Event)) (till : Z) :
  onChangeSupplied cfg = true ->
  timerRef w = None ->
  es <> [] ->
  burst t1 es ->
  effective leap w es ->
  let final := date (fst (run leap cfg w es)) in
  notifications (snd (runUntil leap cfg w es till))
  = (if lastInstant t1 es + DELAY <=? till
     then [Notified (lastInstant t1 es + DELAY)
                    (mkChange (jalaliStr final) (gregoryFormat (jalaliStr final)))]
     else [])
  /\ (lastInstant t1 es + DELAY <= till ->
      timerRef (fst (runUntil leap cfg w es till)) = None).
Proof.
  intros Hcb Hquiet Hne Hburst Heff final.
  destruct (burst_arms_last es w t1) as [Hnone Harmed]; try assumption.
  { intros due s H. rewrite Hquiet in H. discriminate. }
  unfold runUntil.
  destruct (run leap cfg w es) as [w1 obs1] eqn:Erun.
  cbn [fst snd] in *. subst final.
  unfold fire. rewrite Harmed, Hcb.
  destruct (Z.leb_spec (lastInstant t1 es + DELAY) till) as [Hdue|Hearly];
    cbn [fst snd]; unfold notifications in *; rewrite filter_app, Hnone;
    cbn [app filter isNotified]; split; try reflexivity; intros; lia.
Qed.


End PickerTiming.

Lemma burst_is_notified_once_witness :
  notifications
    (snd (runUntil leap33 Example.cfg (mkState (mkDate 1403 6 31) None)
            [(10, Mutate (SetMonth 7)); (100, Mutate (SetYear 1400))] 500))
  = [Notified 250 (mkChange "1400-07-30" (gregoryFormat "1400-07-30"))].
Proof.
  destruct (burst_is_notified_once leap33 Example.cfg
              (mkState (mkDate 1403 6 31) None) 10
              [(10, Mutate (SetMonth 7)); (100, Mutate (SetYear 1400))] 500)
    as [H _].
  - reflexivity.
  - reflexivity.
  - discriminate.
  - cbn. unfold DELAY. lia.
  - cbn. split; [exists (SetMonth 7); split; reflexivity|].
    split; [exists (SetYear 1400); split; reflexivity|exact I].
  - rewrite H. vm_compute. reflexivity.
Defined.


(** ** The specification's scenarios *)

(** Scenario 3: Esfand 30 of a leap year stays; moving the year wheel to a
    common year brings the day down to 29. *)
Example esfand_30_is_clamped_in_a_common_year :
  let w := fst (mount leap33 Example.cfg (mkJDate 1403 11 30) 0) in
  date w = mkDate 1403 12 30
  /\ date (fst (step leap33 Example.cfg w 1000 (Mutate (SetYear 1402))))
     = mkDate 1402 12 29.
Proof. vm_compute. split; reflexivity. Qed.

(** Scenario 5: with [minYear = maxYear] the year wheel has one item and
    the index is 0 at every offset. *)
Example single_year_wheel (y sel : Z) (c b : bool) (el : Surface) :
  yearItems (mkConfig y y b) = [mkItem y (toString y)]
  /\ closestIndex (mkProps (yearItems (mkConfig y y b)) sel c) el = 0.
Proof.
  assert (E : yearItems (mkConfig y y b) = [mkItem y (toString y)]).
  { unfold yearItems. cbn [minYear maxYear].
    replace (y - y + 1) with 1 by lia. reflexivity. }
  split; [exact E|].
  unfold closestIndex, count. cbn [items]. rewrite E. cbn [List.length].
  unfold clamp. lia.
Qed.

(** * Further properties of the wheel *)

(** ** [findIndex] *)

Lemma findIndexFrom_spec (l : list WheelItem) (v : Z) :
  forall k,
    (findIndexFrom k l v = -1 /\ forall it, In it l -> value it <> v)
    \/ (exists (i : nat) (it : WheelItem),
          findIndexFrom k l v = k + Z.of_nat i
          /\ nth_error l i = Some it
          /\ value it = v
          /\ forall (j : nat) (it' : WheelItem),
               (j < i)%nat -> nth_error l j = Some it' -> value it' <> v).
Proof.
  induction l as [|hd tl IH]; intros k.
  - left. split; [reflexivity|]. intros it [].
  - cbn [findIndexFrom]. destruct (Z.eqb_spec (value hd) v) as [Heq|Hneq].
    + right. exists O, hd. repeat split; try assumption; [lia|].
      intros j it' Hj. lia.
    + destruct (IH (k + 1)) as [[Hnone Hall]|(i & it & Hix & Hnth & Hval & Hbefore)].
      * left. split; [exact Hnone|].
        intros it [<-|Hin]; [exact Hneq|now apply Hall].
      * right. exists (S i), it. repeat split; try assumption; [lia|].
        intros [|j] it' Hj Hnth'; cbn [nth_error] in Hnth'.
        -- injection Hnth' as <-. exact Hneq.
        -- apply (Hbefore j it'); [lia|exact Hnth'].
Qed.

(** X1.  [findIndex(v)] is -1 exactly when no item has the value [v];
    otherwise it is the position of the first item with that value, a
    position inside the list. *)
Theorem findIndex_first_or_absent (p : Props) (v : Z) :
  (findIndex p v = -1 /\ forall it, In it (items p) -> value it <> v)
  \/ (0 <= findIndex p v <= count p - 1
      /\ exists it,
           itemAt (items p) (findIndex p v) = Some it
           /\ value it = v
           /\ forall j it', 0 <= j < findIndex p v ->
                itemAt (items p) j = Some it' -> value it' <> v).
Proof.
  unfold findIndex.
  destruct (findIndexFrom_spec (items p) v 0)
    as [H|(i & it & Hix & Hnth & Hval & Hbefore)]; [now left|].
  right. rewrite Hix, Z.add_0_l.
  assert (Hlen : (i < List.length (items p))%nat)
    by (apply nth_error_Some; congruence).
  split; [unfold count; lia|].
  exists it. unfold itemAt.
  destruct (Z.ltb_spec (Z.of_nat i) 0); [lia|].
  rewrite Nat2Z.id. repeat split; try assumption.
  intros j it' Hj. destruct (Z.ltb_spec j 0); [lia|].
  intros Hnth'. apply (Hbefore (Z.to_nat j) it'); [lia|exact Hnth'].
Qed.

(** ** The index as a function of the offset *)

Lemma Math_round_monotone (x y : Q) : (x <= y)%Q -> Math_round x <= Math_round y.
Proof.
  intros H. unfold Math_round. apply Qfloor_resp_le.
  apply Qplus_le_l. exact H.
Qed.

Lemma clamp_monotone (a b lo hi : Z) : a <= b -> clamp a lo hi <= clamp b lo hi.
Proof. unfold clamp. lia. Qed.

(** X2.  The index never goes back when the offset grows: scrolling
    further down cannot select an earlier item, in either mode and for any
    item list. *)
Theorem closestIndex_monotone (p : Props) (el : Surface) (top1 top2 : Q) :
  (top1 <= top2)%Q ->
  closestIndex p (moveTo el top1) <= closestIndex p (moveTo el top2).
Proof.
  intros Hle. unfold closestIndex.
  cbn [moveTo scrollTop scrollHeight clientHeight].
  set (mx := scrollHeight el - clientHeight el).
  destruct (Z.le_gt_cases 0 (count p - 1)) as [Hn|Hn];
    [|unfold clamp; lia].
  apply clamp_monotone.
  destruct (centered p).
  - apply Math_round_monotone. unfold Qdiv.
    apply Qmult_le_compat_r; [exact Hle|]. unfold ITEM_HEIGHT. discriminate.
  - destruct (Z.leb_spec mx 0) as [Hmx|Hmx]; [lia|].
    apply Math_round_monotone.
    apply Qmult_le_compat_r.
    + unfold Qdiv. apply Qmult_le_compat_r; [exact Hle|].
      apply Qlt_le_weak, Qinv_lt_0_compat.
      change (inject_Z 0 < inject_Z mx)%Q. rewrite <- Zlt_Qlt. exact Hmx.
    + change (inject_Z 0 <= inject_Z (count p - 1))%Q.
      rewrite <- Zle_Qle. exact Hn.
Qed.

Lemma closestIndex_monotone_witness :
  closestIndex Example.monthProps (moveTo Example.monthSurface (100 # 1))
  <= closestIndex Example.monthProps (moveTo Example.monthSurface (300 # 1)).
Proof.
  apply (closestIndex_monotone Example.monthProps Example.monthSurface
           (100 # 1) (300 # 1)).
  vm_compute. discriminate.
Defined.

Lemma Math_round_near (x : Q) :
  (inject_Z (Math_round x) - (1 # 2) <= x)%Q
  /\ (x < inject_Z (Math_round x) + (1 # 2))%Q.
Proof.
  unfold Math_round.
  pose proof (Qfloor_le (x + (1 # 2))) as Hlo.
  pose proof (Qlt_floor (x + (1 # 2))) as Hhi.
  rewrite inject_Z_plus in Hhi. change (inject_Z 1) with 1%Q in Hhi.
  split; lra.
Qed.

(** X3.  In centered mode, while the offset is within the span of the
    items, the snap picks a nearest item: the offset of the chosen index is
    at most half an item height (22) away from the current offset, and no
    other index has an offset that is closer. *)
Theorem centered_snap_is_nearest (p : Props) (el : Surface) (top : Q) (j : Z) :
  items p <> [] ->
  centered p = true ->
  (0 <= top)%Q ->
  (top <= inject_Z (ITEM_HEIGHT * (count p - 1)))%Q ->
  let index := closestIndex p (moveTo el top) in
  (Qabs (top - target p el index) <= 22)%Q
  /\ (Qabs (top - target p el index) <= Qabs (top - target p el j))%Q.
Proof.
  intros Hne Hc Hlo Hhi index. pose proof (count_pos p Hne) as Hn.
  subst index. unfold closestIndex, target. rewrite Hc.
  cbn [moveTo scrollTop scrollHeight clientHeight].
  unfold ITEM_HEIGHT in *.
  set (r := Math_round (top / inject_Z 44)).
  destruct (Math_round_near (top / inject_Z 44)) as [Hr1 Hr2]. fold r in Hr1, Hr2.
  rewrite inject_Z_mult in Hhi.
  change (inject_Z 44) with 44%Q in *.
  change (top / 44)%Q with (top * (1 # 44))%Q in Hr1, Hr2.
  assert (Hr0 : 0 <= r).
  { assert (H : (inject_Z (-1) < inject_Z r)%Q).
    { change (inject_Z (-1)) with (-1)%Q. lra. }
    rewrite <- Zlt_Qlt in H. lia. }
  assert (Hrn : r <= count p - 1).
  { assert (H : (inject_Z r < inject_Z (count p - 1 + 1))%Q).
    { rewrite inject_Z_plus. change (inject_Z 1) with 1%Q. lra. }
    rewrite <- Zlt_Qlt in H. lia. }
  assert (Hclamp : clamp r 0 (count p - 1) = r) by (unfold clamp; lia).
  rewrite Hclamp, !inject_Z_mult. change (inject_Z 44) with 44%Q.
  assert (Hnear : (Qabs (top - inject_Z r * 44) <= 22)%Q).
  { apply Qabs_Qle_condition. split; lra. }
  split; [exact Hnear|].
  destruct (Z.lt_trichotomy j r) as [Hj|[->|Hj]].
  - assert (H : (inject_Z j + 1 <= inject_Z r)%Q).
    { change 1%Q with (inject_Z 1). rewrite <- inject_Z_plus.
      rewrite <- Zle_Qle. lia. }
    eapply Qle_trans; [exact Hnear|].
    eapply Qle_trans; [|apply Qle_Qabs]. lra.
  - apply Qle_refl.
  - assert (H : (inject_Z r + 1 <= inject_Z j)%Q).
    { change 1%Q with (inject_Z 1). rewrite <- inject_Z_plus.
      rewrite <- Zle_Qle. lia. }
    eapply Qle_trans; [exact Hnear|].
    rewrite <- Qabs_opp.
    eapply Qle_trans; [|apply Qle_Qabs]. lra.
Qed.

Lemma centered_snap_is_nearest_witness :
  (Qabs ((100 # 1) - target Example.monthProps Example.monthSurface
                       (closestIndex Example.monthProps
                          (moveTo Example.monthSurface (100 # 1))))
   <= 22)%Q.
Proof.
  apply (centered_snap_is_nearest Example.monthProps Example.monthSurface
           (100 # 1) 0).
  - discriminate.
  - reflexivity.
  - vm_compute. discriminate.
  - vm_compute. discriminate.
Defined.

(** ** The wheel at rest *)

Lemma Qabs_self_le (t k : Q) : (0 <= k)%Q -> Qle_bool (Qabs (t - t)) k = true.
Proof.
  intros Hk. apply Qle_bool_iff.
  assert (E : (t - t == 0)%Q) by ring.
  rewrite E. exact Hk.
Qed.

(** X4.  A wheel whose surface is at the exact offset of the selected item
    is at rest: the animation-frame callback publishes nothing, the snap
    publishes nothing and asks for the very offset the surface is at, the
    sync effect issues no scroll, and a click on the selected item does
    nothing.  (Distinct values; centered mode, or a linear wheel that can
    scroll.) *)
Theorem wheel_at_rest_is_quiet
    (p : Props) (el : Surface) (i : nat) (item : WheelItem) :
  NoDup (map value (items p)) ->
  nth_error (items p) i = Some item ->
  selected p = value item ->
  centered p = true \/ 0 < scrollHeight el - clientHeight el ->
  let rest := moveTo el (target p el (Z.of_nat i)) in
  frameCallback p rest = Returns []
  /\ snapToClosest p (Some rest) rest = Returns [ScrollTo (scrollTop rest) Smooth]
  /\ (forall flag, syncEffect p (Some rest) flag = [])
  /\ onClick p (Some rest) item = [].
Proof.
  intros Hnd Hnth Hsel Hmode rest.
  assert (Hne : items p <> []).
  { intros E. rewrite E in Hnth. destruct i; discriminate. }
  assert (Hlen : (i < List.length (items p))%nat)
    by (apply nth_error_Some; congruence).
  assert (Hix : closestIndex p rest = Z.of_nat i).
  { apply snap_is_stable; try assumption. unfold count. lia. }
  assert (Hat : itemAt (items p) (Z.of_nat i) = Some item).
  { unfold itemAt. destruct (Z.ltb_spec (Z.of_nat i) 0); [lia|].
    now rewrite Nat2Z.id. }
  assert (Hfind : findIndex p (value item) = Z.of_nat i).
  { unfold findIndex.
    rewrite (findIndexFrom_nth (items p) 0 i item Hnd Hnth). lia. }
  assert (Hpub : publishIfChanged p (value item) = []).
  { unfold publishIfChanged. now rewrite Hsel, Z.eqb_refl. }
  assert (Htarget : target p rest (Z.of_nat i) = scrollTop rest) by reflexivity.
  repeat split.
  - unfold frameCallback. now rewrite Hix, Hat, Hpub.
  - unfold snapToClosest. rewrite Hix, Hat, Hpub.
    cbn [app scrollToIndex]. now rewrite Htarget.
  - intros flag. unfold syncEffect. rewrite Hsel, Hfind.
    destruct (Z.ltb_spec (Z.of_nat i) 0); [lia|].
    rewrite Htarget, Qabs_self_le by discriminate. reflexivity.
  - unfold onClick. rewrite Hpub, Hfind, Htarget.
    rewrite Qabs_self_le by discriminate. reflexivity.
Qed.

Lemma wheel_at_rest_is_quiet_witness :
  let p := mkProps Picker.monthItems 3 true in
  let rest := moveTo Example.monthSurface (target p Example.monthSurface 2) in
  frameCallback p rest = Returns []
  /\ snapToClosest p (Some rest) rest = Returns [ScrollTo (88 # 1) Smooth].
Proof.
  cbv zeta.
  destruct (wheel_at_rest_is_quiet (mkProps Picker.monthItems 3 true)
              Example.monthSurface 2 (mkItem 3 "خرداد"))
    as (H1 & H2 & _).
  - vm_compute. repeat constructor; cbn; intuition discriminate.
  - reflexivity.
  - reflexivity.
  - left. reflexivity.
  - split; [exact H1 | exact H2].
Defined.

(** ** The snap timer is a debounce *)

Lemma wheel_run_app (es1 es2 : list WheelMachine.Event) :
  forall w : WheelMachine.State,
    snd (WheelMachine.run w (es1 ++ es2))
    = snd (WheelMachine.run w es1)
      ++ snd (WheelMachine.run (fst (WheelMachine.run w es1)) es2).
Proof.
  induction es1 as [|e rest IH]; intros w; [reflexivity|].
  cbn [app]. rewrite !run_cons. cbn [fst snd app]. now rewrite IH.
Qed.

Lemma scrolls_keep_last (tops : list Q) :
  forall (w : WheelMachine.State) (top : Q),
    let w' := fst (WheelMachine.run w (map Scroll (tops ++ [top]))) in
    props w' = props w
    /\ surface w' = moveTo (surface w) top
    /\ snapTimeoutRef w' = Some (props w)
    /\ snd (WheelMachine.run w (map Scroll (tops ++ [top])))
       = map (fun t => (Scroll t, Returns [])) (tops ++ [top]).
Proof.
  induction tops as [|t rest IH]; intros w top.
  - cbn. auto.
  - cbn [app map]. cbv zeta. rewrite run_cons. cbn [fst snd].
    destruct (IH (fst (WheelMachine.step w (Scroll t))) top)
      as (Hp & Hs & Ht & Hlog).
    cbv zeta in Hp, Hs, Ht. rewrite Hp, Hs, Ht, Hlog.
    cbn [WheelMachine.step fst props surface]. auto.
Qed.

(** X5.  However many scroll events precede it, the snap timer fires once:
    the first timeout runs one snap, with the props of the last scroll
    event and at the last offset, and a second timeout finds no timer and
    does nothing.  Until then each scroll event by itself issues no
    command. *)
Theorem scroll_burst_snaps_once
    (w : WheelMachine.State) (tops : list Q) (top : Q) :
  let el := moveTo (surface w) top in
  snd (WheelMachine.run w (map Scroll (tops ++ [top])
                           ++ [SnapTimeout; SnapTimeout]))
  = map (fun t => (Scroll t, Returns [])) (tops ++ [top])
    ++ [(SnapTimeout, snapToClosest (props w) (Some el) el);
        (SnapTimeout, Returns [])].
Proof.
  intros el. rewrite wheel_run_app.
  destruct (scrolls_keep_last tops w top) as (Hp & Hs & Ht & Hlog).
  cbv zeta in Hp, Hs, Ht. rewrite Hlog. f_equal.
  set (w' := fst (WheelMachine.run w (map Scroll (tops ++ [top])))) in *.
  rewrite !run_cons. cbn [WheelMachine.run fst snd].
  cbn [WheelMachine.step]. rewrite Ht, Hs. fold el.
  destruct (snapToClosest (props w) (Some el) el) as [cmds|e];
    cbn [fst snd snapTimeoutRef]; reflexivity.
Qed.

(** ** Offsets stay within the scroll range *)

(** X6.  In linear mode, on a surface whose content is not shorter than its
    viewport, the offset of every index of a wheel lies between 0 and
    [maxScrollTop]; the first item sits at offset 0 and, when there is more
    than one item, the last item exactly at [maxScrollTop]. *)
Theorem linear_targets_span_scroll_range (p : Props) (el : Surface) (i : Z) :
  centered p = false ->
  0 <= scrollHeight el - clientHeight el ->
  0 <= i <= count p - 1 ->
  let maxScrollTop := inject_Z (scrollHeight el - clientHeight el) in
  (0 <= target p el i)%Q
  /\ (target p el i <= maxScrollTop)%Q
  /\ (target p el 0 == 0)%Q
  /\ (1 < count p -> (target p el (count p - 1) == maxScrollTop)%Q).
Proof.
  intros Hc Hmx Hi mx. unfold target. rewrite Hc.
  assert (Hmx0 : (0 <= mx)%Q).
  { subst mx. change (inject_Z 0 <= inject_Z (scrollHeight el - clientHeight el))%Q.
    rewrite <- Zle_Qle. exact Hmx. }
  destruct (Z.ltb_spec 1 (count p)) as [Hn|Hn].
  - fold mx.
    assert (Hd : (0 < inject_Z (count p - 1))%Q).
    { change (inject_Z 0 < inject_Z (count p - 1))%Q. rewrite <- Zlt_Qlt. lia. }
    assert (Hi0 : (0 <= inject_Z i)%Q).
    { change (inject_Z 0 <= inject_Z i)%Q. rewrite <- Zle_Qle. lia. }
    assert (Hi1 : (inject_Z i <= inject_Z (count p - 1))%Q)
      by (rewrite <- Zle_Qle; lia).
    assert (Hq0 : (0 <= inject_Z i / inject_Z (count p - 1))%Q).
    { apply Qle_shift_div_l; [exact Hd|]. lra. }
    assert (Hq1 : (inject_Z i / inject_Z (count p - 1) <= 1)%Q).
    { apply Qle_shift_div_r; [exact Hd|]. lra. }
    split; [|split; [|split]].
    + apply Qmult_le_0_compat; assumption.
    + eapply Qle_trans;
        [apply Qmult_le_compat_r; [exact Hq1|exact Hmx0]|].
      rewrite Qmult_1_l. apply Qle_refl.
    + change (inject_Z 0) with 0%Q. field. lra.
    + intros _. field. lra.
  - split; [apply Qle_refl|]. split; [exact Hmx0|].
    split; [reflexivity|]. intros H. lia.
Qed.

Lemma linear_targets_span_scroll_range_witness :
  let p := mkProps Picker.monthItems 1 false in
  let el := mkSurface 0 528 242 in
  (0 <= target p el 5)%Q /\ (target p el 5 <= inject_Z 286)%Q.
Proof.
  cbv zeta.
  destruct (linear_targets_span_scroll_range
              (mkProps Picker.monthItems 1 false) (mkSurface 0 528 242) 5)
    as (H0 & H1 & _).
  - reflexivity.
  - cbn. lia.
  - vm_compute. split; discriminate.
  - split; [exact H0 | exact H1].
Defined.

(** * Further properties of the initial date resolution *)

Lemma resolveParts_raises_iff
    (jset : Unit -> JDate -> Z -> Dayjs.t) (today : JDate) (parts : list jsnum) :
  resolveParts jset today parts = Throws TypeError
  <-> (List.length parts < 3)%nat.
Proof.
  unfold resolveParts, parsedChain.
  destruct parts as [|y [|m [|d rest]]]; cbn [List.length].
  - cbn. split; [lia|reflexivity].
  - destruct y as [|y]; cbn; (split; [lia|reflexivity]).
  - destruct y as [|y]; destruct m as [|m]; cbn;
      try destruct (jset UYear today y); cbn; (split; [lia|reflexivity]).
  - split; [|lia]. intros H. exfalso. revert H.
    destruct y as [|y]; destruct m as [|m]; destruct d as [|d]; cbn;
      try discriminate;
      destruct (jset UYear today y) as [d1|]; cbn; try discriminate;
      try (destruct (jset UMonth d1 (m - 1)) as [d2|]; cbn; try discriminate);
      try (destruct (jset UDate d2 d) as [d3|]; cbn; discriminate).
Qed.


(** X10.  Whatever the string, a resolution that returns gives a valid date:
    the invalid date never becomes the picker's initial date. *)
Theorem resolution_returns_valid_dates
    (jset : Unit -> JDate -> Z -> Dayjs.t) (today : JDate)
    (input : option string) (o : Dayjs.t) :
  resolveInitial jset today input = Returns o -> isValid o = true.
Proof.
  assert (Hparts : forall parts,
             resolveParts jset today parts = Returns o -> isValid o = true).
  { intros parts. unfold resolveParts.
    destruct (parsedChain jset today parts) as [[o'|n]|e]; cbn [bind];
      try discriminate.
    destruct (isValid o') eqn:E; intros H; injection H as <-; auto. }
  destruct input as [[|c s']|]; cbn [resolveInitial].
  - intros H. injection H as <-. reflexivity.
  - apply Hparts.
  - intros H. injection H as <-. reflexivity.
Qed.

Lemma resolution_returns_valid_dates_witness :
  resolveInitial (fun _ d _ => Valid d) (mkJDate 1404 7 11)
                 (Some "1379-10-05"%string)
  = Returns (Valid (mkJDate 1404 7 11))
  /\ isValid (Valid (mkJDate 1404 7 11)) = true.
Proof.
  split; [reflexivity|].
  apply (resolution_returns_valid_dates (fun _ d _ => Valid d)
           (mkJDate 1404 7 11) (Some "1379-10-05"%string)).
  reflexivity.
Defined.


(** ** The notification string read back *)

Lemma digitsValue_acc (d : Decimal.uint) :
  forall acc : positive,
    digitsValue (Z.pos acc) (NilEmpty.string_of_uint d)
    = Some (Z.pos (Pos.of_uint_acc d acc)).
Proof.
  induction d; intros acc; cbn [NilEmpty.string_of_uint digitsValue];
    [reflexivity|..];
    match goal with
    | |- context [digitValue ?c] =>
        let v := eval vm_compute in (digitValue c) in
        change (digitValue c) with v
    end;
    cbv beta iota; cbn [Pos.of_uint_acc];
    rewrite <- IHd; f_equal; lia.
Qed.

Lemma digitsValue_uint (d : Decimal.uint) :
  digitsValue 0 (NilEmpty.string_of_uint d) = Some (Z.of_N (Pos.of_uint d)).
Proof.
  induction d; cbn [NilEmpty.string_of_uint digitsValue Pos.of_uint];
    [reflexivity|..];
    match goal with
    | |- context [digitValue ?c] =>
        let v := eval vm_compute in (digitValue c) in
        change (digitValue c) with v
    end;
    cbv beta iota; [exact IHd|..];
    match goal with
    | |- digitsValue ?z _ = _ =>
        let v := eval vm_compute in z in change z with v
    end;
    apply digitsValue_acc.
Qed.

Lemma digitsValue_toString (z : Z) :
  0 <= z -> digitsValue 0 (toString z) = Some z.
Proof.
  intros Hz. unfold toString. destruct z as [|p|p]; [reflexivity| |lia].
  cbn [Z.to_int NilZero.string_of_int]. unfold NilZero.string_of_uint.
  pose proof (Unsigned.to_uint_nonnil p) as Hnil.
  replace (match Pos.to_uint p with
           | Decimal.Nil => "0"%string
           | _ => NilEmpty.string_of_uint (Pos.to_uint p)
           end)
    with (NilEmpty.string_of_uint (Pos.to_uint p))
    by (destruct (Pos.to_uint p); congruence).
  rewrite digitsValue_uint, Unsigned.of_to. reflexivity.
Qed.

Lemma digitsValue_leading_zeros (k : nat) (s : string) :
  digitsValue 0 (repeatChar "0" k ++ s) = digitsValue 0 s.
Proof. induction k as [|k IH]; [reflexivity|exact IH]. Qed.

Lemma digitsValue_pad2 (z : Z) : 0 <= z -> digitsValue 0 (pad2 z) = Some z.
Proof.
  intros Hz. unfold pad2, padStart.
  rewrite digitsValue_leading_zeros. now apply digitsValue_toString.
Qed.

Lemma split_digits (s : string) :
  forall acc v,
    digitsValue acc s = Some v ->
    split "-" s = [s]
    /\ forall t, split "-" (s ++ String "-" t) = s :: split "-" t.
Proof.
  induction s as [|c s IH]; intros acc v H.
  - split; reflexivity.
  - cbn [digitsValue] in H. destruct (digitValue c) as [d|] eqn:Ec; [|discriminate].
    assert (Hc : Ascii.eqb c "-" = false).
    { destruct (Ascii.eqb_spec c "-") as [->|]; [discriminate|reflexivity]. }
    destruct (IH _ _ H) as [H1 H2].
    split.
    + cbn [split]. now rewrite Hc, H1.
    + intros t. cbn [append split]. now rewrite Hc, H2.
Qed.

(** X9.  The string a notification carries reads back as the state: for a
    state with non-negative year, month and day, splitting the Jalali
    string at "-" and converting the pieces gives the year, the month and
    the day again, so the initial date resolution of that string does not
    raise and hands exactly these numbers to the setters. *)
Theorem jalaliStr_reads_back
    (jset : Unit -> JDate -> Z -> Dayjs.t) (today : JDate) (s : DateState) :
  0 <= year s -> 0 <= month s -> 0 <= day s ->
  map Number (split "-" (jalaliStr s))
  = [Fin (year s); Fin (month s); Fin (day s)]
  /\ resolveInitial jset today (Some (jalaliStr s))
     = resolveParts jset today [Fin (year s); Fin (month s); Fin (day s)]
  /\ resolveInitial jset today (Some (jalaliStr s)) <> Throws TypeError.
Proof.
  intros Hy Hm Hd.
  pose proof (digitsValue_toString (year s) Hy) as Ey.
  pose proof (digitsValue_pad2 (month s) Hm) as Em.
  pose proof (digitsValue_pad2 (day s) Hd) as Ed.
  assert (Hsplit : split "-" (jalaliStr s)
                   = [toString (year s); pad2 (month s); pad2 (day s)]).
  { unfold jalaliStr.
    change ("-" ++ pad2 (month s) ++ "-" ++ pad2 (day s))%string
      with (String "-" (pad2 (month s) ++ String "-" (pad2 (day s)))).
    rewrite (proj2 (split_digits _ _ _ Ey)).
    rewrite (proj2 (split_digits _ _ _ Em)).
    now rewrite (proj1 (split_digits _ _ _ Ed)). }
  assert (Hpieces : map Number (split "-" (jalaliStr s))
                    = [Fin (year s); Fin (month s); Fin (day s)]).
  { rewrite Hsplit. cbn [map]. unfold Number. now rewrite Ey, Em, Ed. }
  assert (Hres : resolveInitial jset today (Some (jalaliStr s))
                 = resolveParts jset today
                     [Fin (year s); Fin (month s); Fin (day s)]).
  { unfold resolveInitial. rewrite Hpieces.
    destruct (jalaliStr s) eqn:E; [|reflexivity].
    cbn in Hsplit. discriminate. }
  split; [exact Hpieces|]. split; [exact Hres|].
  rewrite Hres.
  rewrite resolveParts_raises_iff. cbn [List.length]. lia.
Qed.

Lemma jalaliStr_reads_back_witness :
  map Number (split "-" (jalaliStr (mkDate 1379 10 5)))
  = [Fin 1379; Fin 10; Fin 5].
Proof.
  apply (jalaliStr_reads_back (fun _ d _ => Valid d) (mkJDate 1404 7 11)
           (mkDate 1379 10 5)); cbn; lia.
Defined.

(** * Further properties of the composite picker *)

(** ** The item lists *)

Lemma findIndexFrom_yearsDown (n : nat) :
  forall (k y0 v : Z),
    findIndexFrom k (yearsDown n y0) v
    = if (y0 - Z.of_nat n <? v) && (v <=? y0) then k + (y0 - v) else -1.
Proof.
  induction n as [|n IH]; intros k y0 v.
  - cbn [yearsDown findIndexFrom].
    destruct (Z.ltb_spec (y0 - Z.of_nat 0) v), (Z.leb_spec v y0);
      cbn [andb]; try reflexivity; lia.
  - cbn [yearsDown findIndexFrom value]. rewrite IH.
    destruct (Z.eqb_spec y0 v) as [Heq|Hne];
      destruct (Z.ltb_spec (y0 - 1 - Z.of_nat n) v),
               (Z.leb_spec v (y0 - 1)),
               (Z.ltb_spec (y0 - Z.of_nat (S n)) v),
               (Z.leb_spec v y0);
      cbn [andb]; try reflexivity; lia.
Qed.

Lemma findIndexFrom_days (n : nat) :
  forall (a : nat) (k v : Z),
    findIndexFrom k
      (map (fun i => let v := Z.of_nat i + 1 in mkItem v (pad2 v)) (seq a n)) v
    = if (Z.of_nat a <? v) && (v <=? Z.of_nat a + Z.of_nat n)
      then k + (v - Z.of_nat a - 1) else -1.
Proof.
  induction n as [|n IH]; intros a k v.
  - cbn [seq map findIndexFrom].
    destruct (Z.ltb_spec (Z.of_nat a) v), (Z.leb_spec v (Z.of_nat a + Z.of_nat 0));
      cbn [andb]; try reflexivity; lia.
  - cbn [seq map findIndexFrom value]. rewrite IH.
    destruct (Z.eqb_spec (Z.of_nat a + 1) v) as [Heq|Hne];
      destruct (Z.ltb_spec (Z.of_nat (S a)) v),
               (Z.leb_spec v (Z.of_nat (S a) + Z.of_nat n)),
               (Z.ltb_spec (Z.of_nat a) v),
               (Z.leb_spec v (Z.of_nat a + Z.of_nat (S n)));
      cbn [andb]; try reflexivity; lia.
Qed.

Lemma findIndex_months (v sel : Z) (c : bool) :
  findIndex (mkProps monthItems sel c) v
  = if (1 <=? v) && (v <=? 12) then v - 1 else -1.
Proof.
  unfold findIndex. cbn [items]. unfold monthItems, faMonths.
  cbn [mapi findIndexFrom value].
  repeat match goal with
         | |- context [?a =? v] =>
             destruct (Z.eqb_spec a v) as [<-|?]; [reflexivity|]
         end.
  destruct (Z.leb_spec 1 v), (Z.leb_spec v 12); cbn [andb]; try reflexivity; lia.
Qed.

(** X11.  Where a value sits in the wheels of the picker: the year [v] at
    position [maxYear - v] (the years run downwards), the month and the day
    [v] at position [v - 1]; a value outside [minYear, maxYear], 1..12 or
    1..[daysInMonth] is in no position ([findIndex] is -1). *)
Theorem picker_item_positions (cfg : Config) (dim v sel : Z) (c : bool) :
  findIndex (mkProps (yearItems cfg) sel c) v
  = (if (minYear cfg <=? v) && (v <=? maxYear cfg) then maxYear cfg - v else -1)
  /\ findIndex (mkProps monthItems sel c) v
     = (if (1 <=? v) && (v <=? 12) then v - 1 else -1)
  /\ findIndex (mkProps (dayItems dim) sel c) v
     = (if (1 <=? v) && (v <=? dim) then v - 1 else -1).
Proof.
  split; [|split; [apply findIndex_months|]].
  - unfold findIndex, yearItems. cbn [items]. rewrite findIndexFrom_yearsDown.
    destruct (Z.ltb_spec (maxYear cfg
                          - Z.of_nat (Z.to_nat (maxYear cfg - minYear cfg + 1))) v),
             (Z.leb_spec v (maxYear cfg)),
             (Z.leb_spec (minYear cfg) v);
      cbn [andb]; try reflexivity; lia.
  - unfold findIndex, dayItems. cbn [items]. rewrite findIndexFrom_days.
    destruct (Z.ltb_spec (Z.of_nat 0) v),
             (Z.leb_spec v (Z.of_nat 0 + Z.of_nat (Z.to_nat dim))),
             (Z.leb_spec 1 v), (Z.leb_spec v dim);
      cbn [andb]; try reflexivity; lia.
Qed.

Lemma in_values_iff (l : list WheelItem) (v : Z) :
  In v (map value l) <-> findIndexFrom 0 l v <> -1.
Proof.
  destruct (findIndexFrom_spec l v 0)
    as [[Hnone Hall]|(i & it & Hix & Hnth & Hval & _)].
  - split; [|congruence]. intros Hin.
    apply in_map_iff in Hin as (it & Hv & Hin). exfalso. now apply (Hall it).
  - split; [lia|]. intros _. rewrite <- Hval.
    apply in_map. eapply nth_error_In; eassumption.
Qed.

Lemma in_yearItems (cfg : Config) (v : Z) :
  In v (map value (yearItems cfg)) <-> minYear cfg <= v <= maxYear cfg.
Proof.
  rewrite in_values_iff. unfold yearItems. rewrite findIndexFrom_yearsDown.
  destruct (Z.ltb_spec (maxYear cfg
                        - Z.of_nat (Z.to_nat (maxYear cfg - minYear cfg + 1))) v),
           (Z.leb_spec v (maxYear cfg));
    cbn [andb]; lia.
Qed.

Lemma in_monthItems (v : Z) : In v (map value monthItems) <-> 1 <= v <= 12.
Proof.
  rewrite in_values_iff.
  change (findIndexFrom 0 monthItems v)
    with (findIndex (mkProps monthItems 0 false) v).
  rewrite findIndex_months.
  destruct (Z.leb_spec 1 v), (Z.leb_spec v 12); cbn [andb]; lia.
Qed.

Lemma in_dayItems (dim v : Z) :
  In v (map value (dayItems dim)) <-> 1 <= v <= dim.
Proof.
  rewrite in_values_iff. unfold dayItems. rewrite findIndexFrom_days.
  destruct (Z.ltb_spec (Z.of_nat 0) v),
           (Z.leb_spec v (Z.of_nat 0 + Z.of_nat (Z.to_nat dim)));
    cbn [andb]; lia.
Qed.

Lemma yearsDown_le (n : nat) :
  forall y0 v, In v (map value (yearsDown n y0)) -> v <= y0.
Proof.
  induction n as [|n IH]; intros y0 v; cbn [yearsDown map value In]; [tauto|].
  intros [<-|Hin]; [lia|]. specialize (IH _ _ Hin). lia.
Qed.

Lemma yearsDown_NoDup (n : nat) :
  forall y0, NoDup (map value (yearsDown n y0)).
Proof.
  induction n as [|n IH]; intros y0; cbn [yearsDown map value];
    constructor; [|apply IH].
  intros Hin. apply yearsDown_le in Hin. lia.
Qed.

(** X12.  In each wheel of the picker the values are pairwise distinct,
    for every year range and every month length: the click handler and the
    sync effect, which look an item up by its value, find the item itself. *)
Theorem picker_wheels_have_distinct_values (cfg : Config) (dim : Z) :
  NoDup (map value (yearItems cfg))
  /\ NoDup (map value monthItems)
  /\ NoDup (map value (dayItems dim)).
Proof.
  split; [|split].
  - apply yearsDown_NoDup.
  - vm_compute. repeat constructor; cbn; intuition discriminate.
  - unfold dayItems. rewrite map_map. cbn [value].
    apply NoDup_map_NoDup_ForallPairs; [|apply seq_NoDup].
    intros a b _ _ H. lia.
Qed.

(** ** The picker always holds a date *)

Import Timeline.

Section PickerTimelines.

Variable leap : Z -> bool.
Variable cfg : Config.

Lemma daysInMonth_29_31 (y m : Z) : 29 <= daysInMonth leap y m <= 31.
Proof.
  unfold daysInMonth.
  destruct (m <=? 6), (m <=? 11), (leap y); lia.
Qed.

Lemma clamped_valid (s : DateState) :
  minYear cfg <= year s <= maxYear cfg ->
  1 <= month s <= 12 ->
  1 <= day s ->
  validDate leap cfg (clamped leap s).
Proof.
  intros Hy Hm Hd. unfold validDate, clamped, daysIn. cbn [year month day].
  pose proof (daysInMonth_29_31 (year s) (month s)). lia.
Qed.

Lemma handle_valid (now : Z) (e : Event) (w : State) :
  validDate leap cfg (date w) ->
  fromWheel leap cfg e ->
  validDate leap cfg (date (fst (handle leap now e w))).
Proof.
  intros Hv He. pose proof Hv as (Hy & Hm & Hd).
  assert (Hre : validDate leap cfg (date (fst (render leap now (date w))))).
  { rewrite render_eq. cbn [fst date]. apply clamped_valid; lia. }
  destruct e as [m|]; cbn [handle]; [|exact Hre].
  destruct (eqb (apply m (date w)) (date w)); [exact Hv|].
  rewrite render_eq. cbn [fst date].
  destruct m as [v|v|v]; cbn [fromWheel] in He; apply clamped_valid;
    cbn [apply year month day]; try lia.
  - now apply in_yearItems.
  - now apply in_monthItems.
  - destruct He as (y & mo & Hin). apply in_dayItems in Hin. lia.
Qed.

Lemma run_valid (es : list (Z * Event)) :
  forall w,
    validDate leap cfg (date w) ->
    allFromWheel leap cfg es ->
    validDate leap cfg (date (fst (run leap cfg w es))).
Proof.
  induction es as [|[now e] rest IH]; intros w Hv Hall; [exact Hv|].
  cbn [allFromWheel] in Hall. destruct Hall as [He Hrest].
  rewrite picker_run_cons. cbn [fst]. apply IH; [|exact Hrest].
  rewrite step_eq. cbn [fst]. apply handle_valid; [|exact He].
  now rewrite fire_date.
Qed.

(** X13.  A picker with [minYear <= maxYear], mounted on a date of the
    calendar and driven by its wheels, holds a date at every rest: the year
    within [minYear, maxYear], the month within 1..12, the day within
    1..[daysInMonth]; and each of the three values is an item of its
    wheel in that render. *)
Theorem wheel_driven_picker_holds_a_date
    (initial : JDate) (now : Z) (es : list (Z * Event)) :
  minYear cfg <= maxYear cfg ->
  0 <= jMonth initial <= 11 ->
  1 <= jDay initial ->
  allFromWheel leap cfg es ->
  let s := date (fst (run leap cfg (fst (mount leap cfg initial now)) es)) in
  validDate leap cfg s
  /\ In (year s) (map value (yearItems cfg))
  /\ In (month s) (map value monthItems)
  /\ In (day s) (map value (dayItems (daysIn leap s))).
Proof.
  intros Hcfg Hm Hd Hall s.
  assert (Hv : validDate leap cfg s).
  { subst s. apply run_valid; [|exact Hall].
    unfold mount. rewrite render_eq. cbn [fst date].
    apply clamped_valid; unfold initialState; cbn [year month day];
      [apply clamp_bounds; exact Hcfg|lia|lia]. }
  split; [exact Hv|]. destruct Hv as (Hy & Hmo & Hda).
  split; [now apply in_yearItems|].
  split; [now apply in_monthItems|now apply in_dayItems].
Qed.

End PickerTimelines.

Lemma wheel_driven_picker_holds_a_date_witness :
  validDate leap33 Example.cfg
    (date (fst (run leap33 Example.cfg
                  (fst (mount leap33 Example.cfg Example.shahrivar31 0))
                  [(10, Mutate (SetMonth 12)); (20, Mutate (SetYear 1402))]))).
Proof.
  destruct (wheel_driven_picker_holds_a_date leap33 Example.cfg
              Example.shahrivar31 0
              [(10, Mutate (SetMonth 12)); (20, Mutate (SetYear 1402))])
    as [H _].
  - unfold Example.cfg. cbn [minYear maxYear]. lia.
  - unfold Example.shahrivar31. cbn [jMonth]. lia.
  - unfold Example.shahrivar31. cbn [jDay]. lia.
  - cbn [allFromWheel fromWheel]. split; [|split; [|exact I]].
    + apply in_monthItems. lia.
    + apply in_yearItems. unfold Example.cfg. cbn [minYear maxYear]. lia.
  - exact H.
Defined.

(** ** The day wheel while the day overflows *)

(** X14.  In the render in which the day exceeds the length of the month,
    the day is not among the items of the day wheel, and the wheel's sync
    effect issues no scroll; in the render after the clamp the day is the
    last item of the day wheel. *)
Theorem overflowing_day_leaves_day_wheel_alone
    (leap : Z -> bool) (s : DateState) (c : bool)
    (containerRef : option Surface) (isUserScrolling : bool) :
  daysIn leap s < day s ->
  findIndex (dayWheel leap c s) (day s) = -1
  /\ syncEffect (dayWheel leap c s) containerRef isUserScrolling = []
  /\ findIndex (dayWheel leap c (clamped leap s)) (day (clamped leap s))
     = count (dayWheel leap c (clamped leap s)) - 1.
Proof.
  intros Hover.
  pose proof (daysInMonth_29_31 leap (year s) (month s)) as Hdim.
  fold (daysIn leap s) in Hdim.
  assert (Hfind : findIndex (dayWheel leap c s) (day s) = -1).
  { unfold findIndex, dayWheel, dayItems. cbn [items selected].
    rewrite findIndexFrom_days.
    destruct (Z.ltb_spec (Z.of_nat 0) (day s)),
             (Z.leb_spec (day s) (Z.of_nat 0 + Z.of_nat (Z.to_nat (daysIn leap s))));
      cbn [andb]; try reflexivity; lia. }
  split; [exact Hfind|]. split.
  - unfold syncEffect.
    change (selected (dayWheel leap c s)) with (day s). rewrite Hfind.
    destruct containerRef; reflexivity.
  - assert (Hsame : daysIn leap (clamped leap s) = daysIn leap s) by reflexivity.
    unfold findIndex, count, dayWheel, dayItems. cbn [items selected].
    rewrite Hsame, findIndexFrom_days, length_map, length_seq.
    unfold clamped. cbn [day].
    destruct (Z.ltb_spec (Z.of_nat 0) (Z.min (day s) (daysIn leap s))),
             (Z.leb_spec (Z.min (day s) (daysIn leap s))
                         (Z.of_nat 0 + Z.of_nat (Z.to_nat (daysIn leap s))));
      cbn [andb]; lia.
Qed.

Lemma overflowing_day_leaves_day_wheel_alone_witness :
  syncEffect (dayWheel leap33 true (mkDate 1403 7 31))
             (Some (mkSurface 1320 1496 220)) false
  = [].
Proof.
  apply (overflowing_day_leaves_day_wheel_alone leap33 (mkDate 1403 7 31) true
           (Some (mkSurface 1320 1496 220)) false).
  vm_compute. reflexivity.
Defined.

(** ** Notifications over a timeline *)

Section Notifications.

Variable leap : Z -> bool.
Variable cfg : Config.

Lemma stamps_app (a b : list Observation) :
  stamps (a ++ b) = stamps a ++ stamps b.
Proof.
  induction a as [|[s|t v] a IH]; cbn [app stamps]; [reflexivity|exact IH|].
  now rewrite IH.
Qed.

Lemma last_cons_default (a : list Z) :
  forall t L, last (t :: a) L = last a t.
Proof.
  induction a as [|t' a IH]; intros t L; [reflexivity|].
  change (last (t :: t' :: a) L) with (last (t' :: a) L).
  rewrite !IH. reflexivity.
Qed.

Lemma spacedAfter_app (a b : list Z) :
  forall L,
    spacedAfter L a -> spacedAfter (last a L) b -> spacedAfter L (a ++ b).
Proof.
  induction a as [|t a IH]; intros L Ha Hb; [exact Hb|].
  cbn [app spacedAfter] in *. destruct Ha as [Ht Ha]. split; [exact Ht|].
  apply IH; [exact Ha|]. now rewrite last_cons_default in Hb.
Qed.

Lemma last_app_default (a b : list Z) :
  forall L, last (a ++ b) L = last b (last a L).
Proof.
  induction a as [|t a IH]; intros L; [reflexivity|].
  cbn [app]. rewrite !last_cons_default. apply IH.
Qed.

Lemma render_stamps (now : Z) (s : DateState) :
  stamps (snd (render leap now s)) = [].
Proof.
  rewrite render_eq. cbn [snd]. now destruct (daysIn leap s <? day s).
Qed.

Lemma fire_spaced (w : State) (now L : Z) :
  (forall due s, timerRef w = Some (due, s) -> L + DELAY <= due) ->
  L <= now ->
  spacedAfter L (stamps (snd (fire cfg now w)))
  /\ (forall due s, timerRef (fst (fire cfg now w)) = Some (due, s) ->
        last (stamps (snd (fire cfg now w))) L + DELAY <= due)
  /\ last (stamps (snd (fire cfg now w))) L <= now.
Proof.
  intros Hinv HL. unfold fire.
  destruct (timerRef w) as [[due s]|] eqn:E.
  - specialize (Hinv due s eq_refl).
    destruct (Z.leb_spec due now) as [Hdue|Hnot].
    + destruct (onChangeSupplied cfg); cbn [fst snd stamps spacedAfter last timerRef];
        repeat split; try discriminate; lia.
    + cbn [fst snd stamps spacedAfter last]. repeat split; [|exact HL].
      intros due' s' H. rewrite E in H. injection H as <- _. exact Hinv.
  - cbn [fst snd stamps spacedAfter last]. repeat split; [|exact HL].
    intros due' s' H. rewrite E in H. discriminate.
Qed.

Lemma handle_spaced (w : State) (now L : Z) (e : Event) :
  (forall due s, timerRef w = Some (due, s) -> L + DELAY <= due) ->
  L <= now ->
  stamps (snd (handle leap now e w)) = []
  /\ (forall due s, timerRef (fst (handle leap now e w)) = Some (due, s) ->
        L + DELAY <= due).
Proof.
  intros Hinv HL.
  assert (Hre : forall s0,
             stamps (snd (render leap now s0)) = []
             /\ (forall due s, timerRef (fst (render leap now s0)) = Some (due, s) ->
                   L + DELAY <= due)).
  { intros s0. split; [apply render_stamps|].
    rewrite render_eq. cbn [fst timerRef]. intros due s H.
    injection H as <- _. lia. }
  destruct e as [m|]; cbn [handle]; [|apply Hre].
  destruct (eqb (apply m (date w)) (date w)); [|apply Hre].
  split; [reflexivity|exact Hinv].
Qed.

Lemma run_spaced (es : list (Z * Event)) :
  forall (w : State) (c L : Z),
    (forall due s, timerRef w = Some (due, s) -> L + DELAY <= due) ->
    L <= c ->
    ordered c es ->
    spacedAfter L (stamps (snd (run leap cfg w es)))
    /\ (forall due s, timerRef (fst (run leap cfg w es)) = Some (due, s) ->
          last (stamps (snd (run leap cfg w es))) L + DELAY <= due).
Proof.
  induction es as [|[now e] rest IH]; intros w c L Hinv HL Hord.
  - cbn [run fst snd stamps spacedAfter last]. split; [exact I|exact Hinv].
  - cbn [ordered] in Hord. destruct Hord as [Hnow Hrest].
    rewrite picker_run_cons, step_eq. cbn [fst snd].
    destruct (fire_spaced w now L Hinv ltac:(lia)) as (Hs1 & Hinv1 & HL1).
    set (w1 := fst (fire cfg now w)) in *.
    set (obs1 := snd (fire cfg now w)) in *.
    destruct (handle_spaced w1 now (last (stamps obs1) L) e Hinv1 HL1)
      as [Hst2 Hinv2].
    set (w2 := fst (handle leap now e w1)) in *.
    destruct (IH w2 now (last (stamps obs1) L) Hinv2 HL1 Hrest) as [Hs3 Hinv3].
    rewrite !stamps_app, Hst2, app_nil_r. split.
    + apply spacedAfter_app; assumption.
    + intros due s H. rewrite last_app_default. exact (Hinv3 due s H).
Qed.

(** X15.  [onChange] is not called more often than once per delay: along
    every timeline whose instants do not go back, the first notification
    comes at least 150 after the mount and each further one at least 150
    after the one before. *)
Theorem notifications_are_spaced
    (initial : JDate) (now : Z) (es : list (Z * Event)) (till : Z) :
  ordered now es ->
  spacedAfter now
    (stamps (snd (runUntil leap cfg (fst (mount leap cfg initial now)) es till))).
Proof.
  intros Hord. unfold runUntil.
  set (w0 := fst (mount leap cfg initial now)).
  assert (Hinv0 : forall due s, timerRef w0 = Some (due, s) -> now + DELAY <= due).
  { subst w0. unfold mount. rewrite render_eq. cbn [fst timerRef].
    intros due s H. injection H as <- _. lia. }
  destruct (run_spaced es w0 now now Hinv0 ltac:(lia) Hord) as [Hs Hinv].
  destruct (run leap cfg w0 es) as [w1 obs1]. cbn [fst snd] in *.
  assert (Hfire : spacedAfter (last (stamps obs1) now)
                    (stamps (snd (fire cfg till w1)))).
  { unfold fire. destruct (timerRef w1) as [[due s]|] eqn:E; [|exact I].
    destruct (due <=? till); [|exact I].
    destruct (onChangeSupplied cfg); [|exact I].
    cbn [snd stamps spacedAfter]. split; [|exact I]. now apply (Hinv due s). }
  destruct (fire cfg till w1) as [w2 obs2]. cbn [fst snd] in *.
  rewrite stamps_app. apply spacedAfter_app; assumption.
Qed.


(** X17.  A render of the picker re-arms the notification even when no
    value has changed: after the parent renders a resting picker again,
    [onChange] is called 150 later with the unchanged date. *)
Theorem rerender_notifies_again (w : State) (now till : Z) :
  onChangeSupplied cfg = true ->
  timerRef w = None ->
  day (date w) <= daysIn leap (date w) ->
  snd (runUntil leap cfg w [(now, Rerender)] till)
  = Rendered (date w)
    :: (if now + DELAY <=? till
        then [Notified (now + DELAY) (changeValue (date w))]
        else []).
Proof.
  intros Hcb Hnone Hfit.
  assert (Hfire : fire cfg now w = (w, [])).
  { apply fire_not_due. intros due s H. rewrite Hnone in H. discriminate. }
  assert (Hstep : step leap cfg w now Rerender
                  = (mkState (date w) (Some (now + DELAY, date w)),
                     [Rendered (date w)])).
  { rewrite step_eq, Hfire. cbn [fst snd app handle].
    rewrite render_eq, clamped_id by exact Hfit. cbn [fst snd].
    destruct (Z.ltb_spec (daysIn leap (date w)) (day (date w))); [lia|].
    reflexivity. }
  unfold runUntil. rewrite picker_run_cons, Hstep. cbn [run fst snd app].
  unfold fire. cbn [timerRef]. rewrite Hcb.
  destruct (now + DELAY <=? till); reflexivity.
Qed.

End Notifications.

Lemma notifications_are_spaced_witness :
  spacedAfter 0
    (stamps (snd (runUntil leap33 Example.cfg
                    (fst (mount leap33 Example.cfg Example.shahrivar31 0))
                    [(200, Mutate (SetMonth 7)); (250, Mutate (SetYear 1400))]
                    1000))).
Proof.
  refine (notifications_are_spaced leap33 Example.cfg Example.shahrivar31 0
            [(200, Mutate (SetMonth 7)); (250, Mutate (SetYear 1400))] 1000 _).
  cbn [ordered]. lia.
Defined.


Lemma rerender_notifies_again_witness :
  snd (runUntil leap33 Example.cfg (mkState (mkDate 1403 6 31) None)
         [(10, Rerender)] 160)
  = [Rendered (mkDate 1403 6 31);
     Notified 160 (changeValue (mkDate 1403 6 31))].
Proof.
  refine (rerender_notifies_again leap33 Example.cfg
            (mkState (mkDate 1403 6 31) None) 10 160 _ _ _).
  - reflexivity.
  - reflexivity.
  - vm_compute. discriminate.
Defined.

(** ** One animation frame per burst *)

Lemma scrolls_keep_last_frame (tops : list Q) :
  forall (w : WheelMachine.State) (top : Q),
    animationFrameRef (fst (WheelMachine.run w (map Scroll (tops ++ [top]))))
    = Some (props w).
Proof.
  induction tops as [|t rest IH]; intros w top; [reflexivity|].
  cbn [app map]. rewrite run_cons. cbn [fst]. rewrite IH. reflexivity.
Qed.

(** X18.  A new scroll event replaces the animation frame that is still
    pending: after any number of scroll events one frame callback runs,
    with the props of the last scroll event and at the last offset, and a
    second frame finds nothing to run. *)
Theorem scroll_burst_runs_one_frame
    (w : WheelMachine.State) (tops : list Q) (top : Q) :
  snd (WheelMachine.run w (map Scroll (tops ++ [top])
                           ++ [AnimationFrame; AnimationFrame]))
  = map (fun t => (Scroll t, Returns [])) (tops ++ [top])
    ++ [(AnimationFrame, frameCallback (props w) (moveTo (surface w) top));
        (AnimationFrame, Returns [])].
Proof.
  rewrite wheel_run_app.
  destruct (scrolls_keep_last tops w top) as (Hp & Hs & Ht & Hlog).
  pose proof (scrolls_keep_last_frame tops w top) as Hf.
  cbv zeta in Hp, Hs, Ht. rewrite Hlog. f_equal.
  set (w' := fst (WheelMachine.run w (map Scroll (tops ++ [top])))) in *.
  rewrite !run_cons. cbn [WheelMachine.run fst snd].
  cbn [WheelMachine.step]. rewrite Hf, Hs. reflexivity.
Qed.
